(** * sqlnaut: the completion extension, embedded and verified

    A shallow embedding of [src/extension.ts]: the completion provider
    with embedding context ([updateVSConfig], [messageHeaderSub],
    [handleError], [autocompleteCommand], [provideCompletionItems]) and the
    chat command of the webview panel.  The legacy provider that the
    sources also contain has the same functions, except that its streaming
    prompt is the header followed by the window (the [previewInput] below)
    and that it has no [createEmbeddings].

    Strings are sequences of code units ([string], one [ascii] per unit),
    positions and lengths are natural numbers, numeric settings are
    integers, the settings storage of the host is a finite map from option
    names to JavaScript values.  Calls to the host (edits, progress
    reports, notifications) are recorded in logs carried by the state;
    a statement that throws makes its function return the error. *)

From Stdlib Require Import ZArith Lia Ascii.
From stdpp Require Import base gmap strings list.

Local Open Scope Z_scope.

(** ** JavaScript primitives used by the extension *)

Module JS.

(** Values that a settings lookup can yield. *)
Inductive value :=
| Undefined
| Null
| Bool (b : bool)
| Num (n : Z)
| Str (s : string).

Definition truthy (v : value) : bool :=
  match v with
  | Undefined | Null => false
  | Bool b => b
  | Num n => negb (n =? 0)
  | Str s => negb (bool_decide (s = ""))
  end.

(** [a || b] *)
Definition or (a b : value) : value := if truthy a then a else b.

Definition nullish (v : value) : bool :=
  match v with Undefined | Null => true | _ => false end.

Definition LF : ascii := "010"%char.

Fixpoint drop (n : nat) (s : string) : string :=
  match n, s with
  | O, _ => s
  | S n', String _ r => drop n' r
  | S _, EmptyString => EmptyString
  end.

(** [s.includes(pat)] *)
Fixpoint includes (pat s : string) : bool :=
  String.prefix pat s ||
  match s with
  | EmptyString => false
  | String _ r => includes pat r
  end.

(** Number of code units of [s] equal to [c]. *)
Fixpoint count (c : ascii) (s : string) : nat :=
  match s with
  | EmptyString => O
  | String d r => (if bool_decide (d = c) then 1 else 0) + count c r
  end.

(** The replacement text of [String.prototype.replace] for a string
    pattern: [$$], [$&], [$`] and [$'] are expanded, there are no
    captures, every other unit stands for itself. *)
Fixpoint getSubstitution (matched before after repl : string) : string :=
  match repl with
  | EmptyString => EmptyString
  | String "$" (String "$" r) =>
      String "$" (getSubstitution matched before after r)
  | String "$" (String "&" r) =>
      matched +:+ getSubstitution matched before after r
  | String "$" (String "`" r) =>
      before +:+ getSubstitution matched before after r
  | String "$" (String "'" r) =>
      after +:+ getSubstitution matched before after r
  | String c r => String c (getSubstitution matched before after r)
  end.

(** [s.replace(pat, repl)] with a string pattern: the first occurrence
    only.  [before] is the text already passed over. *)
Fixpoint replace_from (pat repl before s : string) : string :=
  if String.prefix pat s then
    let after := drop (String.length pat) s in
    getSubstitution pat before after repl +:+ after
  else
    match s with
    | EmptyString => EmptyString
    | String c r => String c (replace_from pat repl (before +:+ String c "") r)
    end.

Definition replace (pat repl s : string) : string :=
  replace_from pat repl "" s.

(** [s.split(sep)] for a separator of one code unit: never empty. *)
Fixpoint split (sep : ascii) (s : string) : list string :=
  match s with
  | EmptyString => [EmptyString]
  | String c r =>
      if bool_decide (c = sep) then EmptyString :: split sep r
      else match split sep r with
           | [] => [String c EmptyString]
           | h :: t => String c h :: t
           end
  end.

(** [arr.join(sep)]; an [undefined] element contributes the empty string. *)
Fixpoint join (sep : string) (l : list (option string)) : string :=
  match l with
  | [] => ""
  | [x] => default "" x
  | x :: rest => default "" x +:+ sep +:+ join sep rest
  end.

(** White space and line terminators among the first 256 code units. *)
Definition is_white (c : ascii) : bool :=
  match c with
  | "009" | "010" | "011" | "012" | "013" | " " | "160" => true
  | _ => false
  end%char.

Fixpoint trimStart (s : string) : string :=
  match s with
  | EmptyString => EmptyString
  | String c r => if is_white c then trimStart r else s
  end.

Fixpoint trimEnd (s : string) : string :=
  match s with
  | EmptyString => EmptyString
  | String c r =>
      let r' := trimEnd r in
      if is_white c && bool_decide (r' = "") then "" else String c r'
  end.

Definition trim (s : string) : string := trimEnd (trimStart s).

Definition clamp (len x : Z) : Z := Z.min (Z.max x 0) len.

(** [s.substring(a, b)]: both ends clamped to [0, length], swapped when
    out of order. *)
Definition substring (a b : Z) (s : string) : string :=
  let len := Z.of_nat (String.length s) in
  let a' := clamp len a in
  let b' := clamp len b in
  let from := Z.min a' b' in
  let to := Z.max a' b' in
  String.substring (Z.to_nat from) (Z.to_nat (to - from)) s.

(** String concatenation with a value that may be [undefined]. *)
Definition to_string (o : option string) : string := default "undefined" o.

End JS.

(** ** Configuration snapshot: [updateVSConfig] *)

Module Config.

(** The module-level variables written by [updateVSConfig]. *)
Record Snapshot := {
  apiEndpoint : JS.value;
  apiModel : JS.value;
  apiMessageHeader : JS.value;
  embedModel : JS.value;
  numPredict : JS.value;
  promptWindowSize : JS.value;
  completionKeys : JS.value;
  responsePreview : JS.value;
  responsePreviewMaxTokens : JS.value;
  responsePreviewDelay : JS.value;
  continueInline : JS.value;
  apiTemperature : JS.value
}.

(** [VSConfig.get(key)]: [undefined] for an option that is not stored. *)
Definition get (store : gmap string JS.value) (key : string) : JS.value :=
  default JS.Undefined (store !! key).

Definition updateVSConfig (VSConfig : gmap string JS.value) : Snapshot := {|
  apiEndpoint := JS.or (get VSConfig "endpoint") (JS.Str "");
  apiModel := JS.or (get VSConfig "model") (JS.Str "");
  apiMessageHeader := JS.or (get VSConfig "message header") (JS.Str "");
  embedModel := JS.or (get VSConfig "model") (JS.Str "");
  numPredict := JS.or (get VSConfig "max tokens predicted") (JS.Num 0);
  promptWindowSize := JS.or (get VSConfig "prompt window size") (JS.Num 0);
  completionKeys := JS.or (get VSConfig "completion keys") (JS.Str " ");
  responsePreview := get VSConfig "response preview";
  responsePreviewMaxTokens := JS.or (get VSConfig "preview max tokens") (JS.Num 0);
  responsePreviewDelay := JS.or (get VSConfig "preview delay") (JS.Num 0);
  continueInline := get VSConfig "continue inline";
  apiTemperature := JS.or (get VSConfig "temperature") (JS.Num 0)
|}.

(** The recognised options, the variable each one is stored in, and the
    default the source gives it ([None]: stored as read). *)
Inductive option_name :=
| Endpoint | Model | MessageHeader | MaxTokensPredicted | PromptWindowSize
| CompletionKeys | ResponsePreview | PreviewMaxTokens | PreviewDelay
| ContinueInline | Temperature.

Definition all_options : list option_name :=
  [Endpoint; Model; MessageHeader; MaxTokensPredicted; PromptWindowSize;
   CompletionKeys; ResponsePreview; PreviewMaxTokens; PreviewDelay;
   ContinueInline; Temperature].

Definition key (o : option_name) : string :=
  match o with
  | Endpoint => "endpoint"
  | Model => "model"
  | MessageHeader => "message header"
  | MaxTokensPredicted => "max tokens predicted"
  | PromptWindowSize => "prompt window size"
  | CompletionKeys => "completion keys"
  | ResponsePreview => "response preview"
  | PreviewMaxTokens => "preview max tokens"
  | PreviewDelay => "preview delay"
  | ContinueInline => "continue inline"
  | Temperature => "temperature"
  end.

Definition field (o : option_name) (s : Snapshot) : JS.value :=
  match o with
  | Endpoint => apiEndpoint s
  | Model => apiModel s
  | MessageHeader => apiMessageHeader s
  | MaxTokensPredicted => numPredict s
  | PromptWindowSize => promptWindowSize s
  | CompletionKeys => completionKeys s
  | ResponsePreview => responsePreview s
  | PreviewMaxTokens => responsePreviewMaxTokens s
  | PreviewDelay => responsePreviewDelay s
  | ContinueInline => continueInline s
  | Temperature => apiTemperature s
  end.

Inductive kind := StringOption | NumericOption | TriggerKeys | Flag.

Definition kind_of (o : option_name) : kind :=
  match o with
  | Endpoint | Model | MessageHeader => StringOption
  | MaxTokensPredicted | PromptWindowSize | PreviewMaxTokens
  | PreviewDelay | Temperature => NumericOption
  | CompletionKeys => TriggerKeys
  | ResponsePreview | ContinueInline => Flag
  end.

(** The documented defaults: empty string, zero, one space. *)
Definition documented_default (k : kind) : option JS.value :=
  match k with
  | StringOption => Some (JS.Str "")
  | NumericOption => Some (JS.Num 0)
  | TriggerKeys => Some (JS.Str " ")
  | Flag => None
  end.

(** The variables that are placed in a request body or used to build the
    prompt: the flags only select the path and are tested for truth. *)
Definition request_fields (s : Snapshot) : list JS.value :=
  [apiEndpoint s; apiModel s; apiMessageHeader s; embedModel s;
   numPredict s; promptWindowSize s; responsePreviewMaxTokens s;
   apiTemperature s].

End Config.

(** ** Host editor data *)

Module Editor.

Record Position := { line : nat; character : nat }.

Global Instance Position_eq_dec : EqDecision Position.
Proof. solve_decision. Defined.

(** [p.isBefore(q)] *)
Definition isBefore (p q : Position) : bool :=
  (line p <? line q)%nat || ((line p =? line q)%nat && (character p <? character q)%nat).

Record Selection := { anchor : Position; active : Position }.

(** [selection.end]: the later of anchor and active. *)
Definition sel_end (s : Selection) : Position :=
  if isBefore (active s) (anchor s) then anchor s else active s.

Record Range := { range_start : Position; range_end : Position }.

(** A text document as the extension sees it: two attributes and the
    host's range read. *)
Record TextDocument := {
  languageId : string;
  fileName : string;
  getText : Range → string
}.

Definition file_start : Position := {| line := 0; character := 0 |}.

End Editor.

(** ** The extension *)

Module Ext.
Import Editor.

(** The module-level variables at the types the source declares. *)
Record Globals := {
  apiEndpoint : string;
  apiModel : string;
  apiMessageHeader : string;
  apiTemperature : Z;
  embedModel : string;
  numPredict : Z;
  promptWindowSize : Z;
  completionKeys : string;
  responsePreview : option bool;
  responsePreviewMaxTokens : Z;
  responsePreviewDelay : Z;
  continueInline : option bool
}.

Definition as_string (v : JS.value) : option string :=
  match v with JS.Str s => Some s | _ => None end.

Definition as_number (v : JS.value) : option Z :=
  match v with JS.Num n => Some n | _ => None end.

Definition as_flag (v : JS.value) : option (option bool) :=
  match v with
  | JS.Undefined => Some None
  | JS.Bool b => Some (Some b)
  | _ => None
  end.

(** The snapshot read at the declared types, when every stored value has
    the type of its variable. *)
Definition of_snapshot (s : Config.Snapshot) : option Globals :=
  endpoint ← as_string (Config.apiEndpoint s);
  model ← as_string (Config.apiModel s);
  header ← as_string (Config.apiMessageHeader s);
  temperature ← as_number (Config.apiTemperature s);
  embed ← as_string (Config.embedModel s);
  predict ← as_number (Config.numPredict s);
  window ← as_number (Config.promptWindowSize s);
  keys ← as_string (Config.completionKeys s);
  preview ← as_flag (Config.responsePreview s);
  preview_tokens ← as_number (Config.responsePreviewMaxTokens s);
  preview_delay ← as_number (Config.responsePreviewDelay s);
  inline ← as_flag (Config.continueInline s);
  Some {| apiEndpoint := endpoint; apiModel := model;
          apiMessageHeader := header; apiTemperature := temperature;
          embedModel := embed; numPredict := predict;
          promptWindowSize := window; completionKeys := keys;
          responsePreview := preview;
          responsePreviewMaxTokens := preview_tokens;
          responsePreviewDelay := preview_delay;
          continueInline := inline |}.

(** *** [messageHeaderSub] *)

(** [vscode.workspace.name || "Untitled"] *)
Definition project_name (workspace_name : option string) : string :=
  match workspace_name with
  | Some n => if bool_decide (n = "") then "Untitled" else n
  | None => "Untitled"
  end.

Definition messageHeaderSub (g : Globals) (workspace_name : option string)
    (document : TextDocument) : string :=
  JS.replace "{PROJECT_NAME}" (project_name workspace_name)
    (JS.replace "{FILE_NAME}" (fileName document)
       (JS.replace "{LANG}" (languageId document) (apiMessageHeader g))).

(** *** [handleError] *)

Record Error := {
  code : option string;
  message : option string
}.

Inductive effect :=
| ShowErrorMessage (text : string)
| ConsoleError (err : Error).

Definition error_reason (err : Error) : string :=
  let r0 := match code err with
            | Some c => if bool_decide (c = "") then "" else c
            | None => ""
            end in
  let r1 := if bool_decide (code err = Some "ECONNREFUSED")
            then "ECONNREFUSED — Ollama is likely not running" else r0 in
  if bool_decide (code err = Some "ERR_BAD_REQUEST")
  then "ERR_BAD_REQUEST — Settings are likely misconfigured" else r1.

Definition handleError (err : Error) : list effect :=
  if bool_decide (code err = Some "ERR_CANCELED") then []
  else
    let error_response := message err in
    [ShowErrorMessage
       ("Ollama Autocoder encountered an error: " +:+ error_reason err +:+
        (if bool_decide (error_response = Some "") then "" else ": ") +:+
        JS.to_string error_response);
     ConsoleError err].

(** *** Prompt building *)

(** The two statements that open [autocompleteCommand] (l.96-97) and the
    preview branch of [provideCompletionItems] (l.228-229). *)
Definition clipped_prompt (g : Globals) (document : TextDocument)
    (position : Position) : string :=
  let prompt := getText document {| range_start := file_start; range_end := position |} in
  let len := Z.of_nat (String.length prompt) in
  JS.substring (Z.max 0 (len - promptWindowSize g)) len prompt.

(** An entry of an [embeddings] array, of which the source reads the
    [text] property only ([undefined] when an entry has none). *)
Record Embedding := { text : option string }.

(** The error thrown on reading, or in strict code on assigning, an
    identifier that no scope declares. *)
Definition ReferenceError (name : string) : Error :=
  {| code := None; message := Some (name +:+ " is not defined") |}.

(** [completeInput] of [autocompleteCommand] (l.96-101).  The module
    declares no [embeddings] (its variables are those of l.6-18), so the
    identifier at l.100 resolves only through the global object:
    [global_embeddings] is its property of that name, if some other code
    has defined one.  Without it l.100 throws, after the window has been
    clipped and before the header is substituted. *)
Definition completeInput (global_embeddings : option (list Embedding))
    (g : Globals) (workspace_name : option string) (document : TextDocument)
    (position : Position) : Error + string :=
  let prompt := clipped_prompt g document position in
  match global_embeddings with
  | None => inl (ReferenceError "embeddings")
  | Some embeddings =>
      let context := JS.join (String JS.LF "") (text <$> embeddings) in
      inr (messageHeaderSub g workspace_name document
           +:+ context +:+ String JS.LF "" +:+ prompt)
  end.

(** The binding of [embeddings] as the module is loaded: none. *)
Definition module_embeddings : option (list Embedding) := None.

(** [completeInput] of [provideCompletionItems] (l.230), and of the legacy
    [autocompleteCommand] (l.497): the header and the window. *)
Definition previewInput (g : Globals) (workspace_name : option string)
    (document : TextDocument) (position : Position) : string :=
  messageHeaderSub g workspace_name document +:+ clipped_prompt g document position.

(** The body posted to the endpoint. *)
Record RequestBody := {
  model : string;
  prompt : string;
  stream : bool;
  raw : bool;
  num_predict : Z;
  temperature : Z;
  stop : list string;
  num_ctx : Z
}.

Definition streamRequest (g : Globals) (input : string) : RequestBody := {|
  model := apiModel g;
  prompt := input;
  stream := true;
  raw := true;
  num_predict := numPredict g;
  temperature := apiTemperature g;
  stop := ["```"];
  num_ctx := Z.min (Z.of_nat (String.length input)) (promptWindowSize g)
|}.

Definition previewRequest (g : Globals) (input : string) : RequestBody := {|
  model := apiModel g;
  prompt := input;
  stream := false;
  raw := true;
  num_predict := responsePreviewMaxTokens g;
  temperature := apiTemperature g;
  stop := [String JS.LF ""; "```"];
  num_ctx := Z.min (Z.of_nat (String.length input)) (promptWindowSize g)
|}.

(** What [autocompleteCommand] posts (l.126-140), or the error that ends
    it before any progress notification, request or edit. *)
Definition autocompleteRequest (global_embeddings : option (list Embedding))
    (g : Globals) (workspace_name : option string) (document : TextDocument)
    (position : Position) : Error + RequestBody :=
  match completeInput global_embeddings g workspace_name document position with
  | inl err => inl err
  | inr input => inr (streamRequest g input)
  end.

(** What the legacy [autocompleteCommand] posts (l.497-515). *)
Definition legacyRequest (g : Globals) (workspace_name : option string)
    (document : TextDocument) (position : Position) : RequestBody :=
  streamRequest g (previewInput g workspace_name document position).

End Ext.

(** ** Header templates

    A template read as literal text and placeholders, to state what the
    substitution makes of it. *)

Module Template.

Inductive placeholder := LANG | FILE_NAME | PROJECT_NAME.

Global Instance placeholder_eq_dec : EqDecision placeholder.
Proof. solve_decision. Defined.

Definition name (p : placeholder) : string :=
  match p with
  | LANG => "{LANG}"
  | FILE_NAME => "{FILE_NAME}"
  | PROJECT_NAME => "{PROJECT_NAME}"
  end.

Inductive token :=
| Lit (s : string)
| Hole (p : placeholder).

Fixpoint render (toks : list token) : string :=
  match toks with
  | [] => ""
  | Lit s :: rest => s +:+ render rest
  | Hole p :: rest => name p +:+ render rest
  end.

(** The first [Hole p], if any, becomes the text [v]. *)
Fixpoint fill_first (p : placeholder) (v : string) (toks : list token) : list token :=
  match toks with
  | [] => []
  | Lit s :: rest => Lit s :: fill_first p v rest
  | Hole q :: rest =>
      if bool_decide (p = q) then Lit v :: rest else Hole q :: fill_first p v rest
  end.

(** Literal text has no opening brace: a brace only opens a placeholder. *)
Definition well_formed (t : token) : Prop :=
  match t with
  | Lit s => JS.count "{" s = 0%nat
  | Hole _ => True
  end.

End Template.

(** ** The streaming apply loop of [autocompleteCommand]

    The handlers of l.145-196, which are also those of the legacy copy
    (l.520-572), where the function reaches them; in the first copy it
    throws before (see [Ext.completeInput]).  The state is what the
    callback passed to [withProgress] closes over once [axios.post] has
    returned the response stream, together with the editor's live selection
    and a log of the calls made to the host.

    The ['data'] handler is an async function: it runs up to its
    [await applyEdit] (l.164) when a chunk arrives and resumes, in a later
    turn of the event loop, when that edit resolves; the handlers of later
    chunks can start in between, and the edits may resolve in any order.
    A cancel call only resolves the promise of the token: the reactions to
    it (the abort inside the transport, and the [resolve(false)] of
    l.191-193) run once the emissions of the current read are over, the
    other chunks of the read and an ['end'] that comes with them included.
    The progress increment is a floating-point quotient and is left out of
    the report log. *)

Module Stream.
Import Editor.

(** The response stream of the transport. *)
Inductive stream_state := Flowing | Ended | Destroyed.

Global Instance stream_state_eq_dec : EqDecision stream_state.
Proof. solve_decision. Defined.

(** A chunk as l.155 reads it: text that parses to an object with a
    string [response], as the endpoint sends them one to a chunk, or text
    on which [JSON.parse] throws (a partial line, or several lines).  A
    chunk of valid JSON without a string [response] is not covered. *)
Inductive chunk :=
| Parsed (completion : string)
| Unparsable.

Record State := {
  position : Position;                    (* the trigger position *)
  currentPosition : Position;             (* the tracker *)
  selection : Selection;                  (* textEditor.selection *)
  cancel_reason : option string;          (* axiosCancelToken.reason *)
  response : stream_state;                (* response.data *)
  finished : option bool;                 (* the promise [finished] *)
  returned : nat;                         (* resumptions of [await finished] *)
  pending : list string;                  (* handlers at their await, oldest first *)
  edits : list (Position * string);       (* applyEdit calls, oldest first *)
  reports : list string                   (* progress.report messages *)
}.

Definition report (msg : string) (st : State) : State :=
  {| position := position st; currentPosition := currentPosition st;
     selection := selection st; cancel_reason := cancel_reason st;
     response := response st; finished := finished st;
     returned := returned st; pending := pending st; edits := edits st;
     reports := reports st ++ [msg] |}.

(** [resolve(v)] of the promise [finished]: settles it if it is pending,
    and then the awaiting callback resumes; no effect on a settled one. *)
Definition resolve (v : bool) (st : State) : State :=
  match finished st with
  | Some _ => st
  | None =>
      {| position := position st; currentPosition := currentPosition st;
         selection := selection st; cancel_reason := cancel_reason st;
         response := response st; finished := Some v;
         returned := S (returned st); pending := pending st;
         edits := edits st; reports := reports st |}
  end.

(** [axiosCancelPost()], that is [c("...")] of the cancel token: the
    first call sets the reason and resolves the token's promise; later
    calls do nothing.  What hangs on the promise runs in [reactions]. *)
Definition axiosCancelPost (st : State) : State :=
  match cancel_reason st with
  | Some _ => st
  | None =>
      {| position := position st; currentPosition := currentPosition st;
         selection := selection st;
         cancel_reason := Some "Autocompletion request terminated by user cancel";
         response := response st; finished := finished st;
         returned := returned st; pending := pending st;
         edits := edits st; reports := reports st |}
  end.

Definition set_response (r : stream_state) (st : State) : State :=
  {| position := position st; currentPosition := currentPosition st;
     selection := selection st; cancel_reason := cancel_reason st;
     response := r; finished := finished st;
     returned := returned st; pending := pending st;
     edits := edits st; reports := reports st |}.

(** The reactions to a resolved token promise: the transport aborts the
    request, which destroys a response stream that still flows, and the
    [finally] callback of l.191-193 calls [resolve(false)]. *)
Definition reactions (st : State) : State :=
  match cancel_reason st with
  | None => st
  | Some _ =>
      resolve false
        (match response st with
         | Flowing => set_response Destroyed st
         | _ => st
         end)
  end.

(** The tracker after inserting [completion] at [cur] (l.167-171). *)
Definition newPosition (cur : Position) (completion : string) : Position :=
  let completionLines := JS.split JS.LF completion in
  {| line := line cur + length completionLines - 1;
     character := (if (1 <? length completionLines)%nat then 0 else character cur)
                  + String.length (List.last completionLines "") |}%nat.

(** The ['data'] handler up to its await (l.146-164): the report, the
    check of the selection against the tracker, the parse, the test for an
    empty completion, and the insertion at the tracker as it is now. *)
Definition onData (d : chunk) (st0 : State) : State :=
  let st := report "Generating..." st0 in
  if bool_decide (line (currentPosition st) ≠ line (sel_end (selection st))
                  ∨ character (currentPosition st) ≠ character (sel_end (selection st)))
  then axiosCancelPost st
  else
    match d with
    | Unparsable => st
    | Parsed completion =>
        if bool_decide (completion = "") then st
        else
          {| position := position st; currentPosition := currentPosition st;
             selection := selection st; cancel_reason := cancel_reason st;
             response := response st; finished := finished st;
             returned := returned st;
             pending := pending st ++ [completion];
             edits := edits st ++ [(currentPosition st, completion)];
             reports := reports st |}
    end.

(** The ['data'] handler after its await (l.166-182), for the [i]-th of
    the suspended handlers: the new position is computed from the tracker
    as it is at that time, then the tracker, the progress and the selection
    are updated. *)
Definition resume (i : nat) (st : State) : State :=
  match pending st !! i with
  | None => st
  | Some completion =>
      let np := newPosition (currentPosition st) completion in
      {| position := position st; currentPosition := np;
         selection := {| anchor := position st; active := np |};
         cancel_reason := cancel_reason st;
         response := response st; finished := finished st;
         returned := returned st; pending := delete i (pending st);
         edits := edits st;
         reports := reports st ++ ["Generating..."] |}
  end.

(** The ['end'] handler (l.187-190). *)
Definition onEnd (st : State) : State :=
  resolve true (report "Ollama completion finished." st).

Inductive cancel_source := HostToken | ProgressUI | DocumentClosed.

Inductive event :=
| Read (chunks : list chunk) (eof : bool)
    (* one read of the socket: its chunks, each emitted as 'data' in turn,
       and 'end' after them if the read completes the response *)
| Applied (i : nat)                   (* the edit of the i-th waiting handler resolves *)
| Cancel (src : cancel_source)        (* a registered source calls cancelPost *)
| Select (sel : Selection).           (* the selection is changed from outside *)

Definition set_selection (sel : Selection) (st : State) : State :=
  {| position := position st; currentPosition := currentPosition st;
     selection := sel; cancel_reason := cancel_reason st;
     response := response st; finished := finished st;
     returned := returned st; pending := pending st;
     edits := edits st; reports := reports st |}.

(** The ['data'] handlers of the chunks of one read, in turn. *)
Definition deliver (chunks : list chunk) (st : State) : State :=
  foldl (λ s d, onData d s) st chunks.

(** One turn of the event loop.  A response stream emits only while it
    flows: not after its end, and not after the abort has destroyed it;
    this is the transport's part of a cancellation, the handlers have no
    cancelled flag of their own.  The reactions to a cancel call run at the
    end of the turn. *)
Definition step (st : State) (e : event) : State :=
  match e with
  | Read chunks eof =>
      match response st with
      | Flowing =>
          let st1 := deliver chunks st in
          reactions (if eof then onEnd (set_response Ended st1) else st1)
      | _ => st
      end
  | Applied i => resume i st
  | Cancel _ => reactions (axiosCancelPost st)
  | Select sel => set_selection sel st
  end.

Definition run (evs : list event) (st : State) : State := foldl step st evs.

(** The state in which the handlers are installed: request issued at the
    active end of the selection, token not cancelled, promise pending. *)
Definition start (sel : Selection) : State :=
  {| position := active sel; currentPosition := active sel;
     selection := sel; cancel_reason := None; response := Flowing;
     finished := None; returned := 0; pending := []; edits := [];
     reports := ["Starting model..."] |}.

Definition completion_message : string := "Ollama completion finished.".

(** What every reachable state satisfies. *)
Definition consistent (st : State) : Prop :=
  match response st, finished st with
  | Flowing, None =>
      cancel_reason st = None ∧ returned st = 0%nat
      ∧ completion_message ∉ reports st
  | Ended, Some true =>
      returned st = 1%nat ∧ completion_message ∈ reports st
  | Destroyed, Some false =>
      cancel_reason st ≠ None ∧ returned st = 1%nat
      ∧ completion_message ∉ reports st
  | _, _ => False
  end.

(** The selection end has left the tracker. *)
Definition stale (st : State) : Prop :=
  sel_end (selection st) ≠ currentPosition st.

(** The completions of the chunks that parse, and those among them for
    which an edit is made. *)
Definition parsed (chunks : list chunk) : list string :=
  omap (λ d, match d with Parsed c => Some c | Unparsable => None end) chunks.

Definition texts (chunks : list chunk) : list string :=
  filter (λ t, t ≠ "") (parsed chunks).

(** Words of the specification, for comparison with [newPosition]. *)

(** The text after the last occurrence of [c] (all of [s] if none). *)
Fixpoint after_last (c : ascii) (s : string) : string :=
  match s with
  | EmptyString => EmptyString
  | String d r =>
      if (0 <? JS.count c r)%nat then after_last c r
      else if bool_decide (d = c) then r else s
  end.

Definition spec_tracker (cur : Position) (fragment : string) : Position :=
  if (JS.count JS.LF fragment =? 0)%nat
  then {| line := line cur; character := character cur + String.length fragment |}%nat
  else {| line := line cur + JS.count JS.LF fragment;
          character := String.length (after_last JS.LF fragment) |}%nat.

End Stream.

(** ** [provideCompletionItems] *)

Module Provider.
Import Editor Ext.

Inductive InsertText :=
| SnippetString (s : string)
| Text (s : string).

Record Command := { command : string; title : string }.

Record CompletionItem := {
  label : string;
  insertText : InsertText;
  documentation : option string;
  item_command : option Command
}.

(** What [axios.post] gives back: the [response] text of the body, or a
    failure with the [error] text of the response body when it has one. *)
Inductive outcome :=
| Succeeds (response : string)
| Fails (err : Error) (body_error : option (option string)).

Definition truth (b : option bool) : bool := default false b.

Definition autocomplete_command : Command :=
  {| command := "squeel-autocoder.autocomplete"; title := "Autocomplete with Ollama" |}.

(** The result: the single item and the effects of the error reporter.
    [cancelled] is [cancellationToken.isCancellationRequested] after the
    delay; [post] answers the request. *)
Definition provideCompletionItems (g : Globals) (cancelled : bool)
    (post : RequestBody → outcome) (workspace_name : option string)
    (document : TextDocument) (position : Position)
    : list CompletionItem * list effect :=
  let item := {| label := "Autocomplete with Ollama";
                 insertText := SnippetString "${1:}";
                 documentation := None; item_command := None |} in
  if cancelled then ([item], [])
  else
    let '(item, effects) :=
      if truth (responsePreview g) then
        match post (previewRequest g (previewInput g workspace_name document position)) with
        | Succeeds response =>
            if bool_decide (JS.trim response ≠ "")
            then ({| label := JS.trimStart response;
                     insertText := Text (JS.trimStart response);
                     documentation := documentation item;
                     item_command := item_command item |}, [])
            else (item, [])
        | Fails err body_error =>
            let err' := match body_error with
                        | Some e => {| code := code err; message := e |}
                        | None => err
                        end in
            (item, handleError err')
        end
      else (item, []) in
    ([{| label := label item;
         insertText := insertText item;
         documentation := Some "Press `Enter` to get an autocompletion from Ollama";
         item_command := if truth (continueInline g) || negb (truth (responsePreview g))
                         then Some autocomplete_command else None |}],
     effects).

End Provider.

(** ** The chat command of the webview panel *)

Module Chat.

Record Message := { msg_command : string; msg_text : string }.

Record ChatMessage := { role : string; content : string }.

Record ChatRequest := {
  chat_model : string;
  messages : list ChatMessage;
  chat_stream : bool
}.

(** The request that the [onDidReceiveMessage] handler passes to
    [ollama.chat], if any.  The module-level variables of the completion
    provider are in scope of the model, as any global is. *)
Definition chat_request (g : Ext.Globals) (message : Message) : option ChatRequest :=
  if bool_decide (msg_command message = "ask") then
    Some {| chat_model := "deepseek-r1:8b";
            messages := [{| role := "user"; content := msg_text message |}];
            chat_stream := true |}
  else None.

(** The texts posted back to the webview while the parts arrive: the
    running concatenation. *)
Fixpoint posted (responseText : string) (parts : list string) : list string :=
  match parts with
  | [] => []
  | p :: rest => (responseText +:+ p) :: posted (responseText +:+ p) rest
  end.

End Chat.

(** ** Concrete inputs used by the examples *)

Module Sample.
Import Editor Ext.

Definition globals (header : string) (window : Z) (preview inline : option bool) : Globals :=
  {| apiEndpoint := "http://localhost:11434/api/generate";
     apiModel := "qwen2.5-coder";
     apiMessageHeader := header;
     apiTemperature := 0;
     embedModel := "qwen2.5-coder";
     numPredict := 1000;
     promptWindowSize := window;
     completionKeys := " ";
     responsePreview := preview;
     responsePreviewMaxTokens := 50;
     responsePreviewDelay := 1;
     continueInline := inline |}.

(** A document whose text before any position is [before]. *)
Definition document (before : string) : TextDocument :=
  {| languageId := "sql"; fileName := "q.sql"; getText := λ _, before |}.

Definition at_ (l c : nat) : Position := {| line := l; character := c |}.

Definition caret (l c : nat) : Selection := {| anchor := at_ l c; active := at_ l c |}.

End Sample.

(** ** Further parts of the extension *)

(** Text helpers used to state properties. *)

Module Text.

(** The concatenation of a list of strings. *)
Fixpoint cat (l : list string) : string :=
  match l with
  | [] => ""
  | x :: rest => x +:+ cat rest
  end.

(** [s.split("")]: the code units of [s], one string each. *)
Fixpoint units (s : string) : list string :=
  match s with
  | EmptyString => []
  | String c r => String c "" :: units r
  end.

End Text.

(** *** [activate] *)

Module Activation.
Import Ext.

(** What [activate] pushes on [context.subscriptions]. *)
Inductive subscription :=
| CompletionItemProvider (selector : string) (triggerCharacters : list string)
| TextEditorCommand (name : string)
| Command (name : string).

Definition activate (g : Globals) : list subscription :=
  [CompletionItemProvider "*" (Text.units (completionKeys g));
   TextEditorCommand "squeel-autocoder.autocomplete";
   Command "squeel-autocoder.createEmbeddings"].

(** The legacy provider registers a trigger command in place of the
    embeddings command. *)
Definition activate_legacy (g : Globals) : list subscription :=
  [CompletionItemProvider "*" (Text.units (completionKeys g));
   TextEditorCommand "squeel-autocoder.autocomplete";
   Command "squeel-autocoder.triggerAutocomplete"].

Definition triggers (subs : list subscription) : list (list string) :=
  omap (λ sub, match sub with
               | CompletionItemProvider _ t => Some t
               | _ => None
               end) subs.

End Activation.

(** *** [createEmbeddings] *)

Module Embeddings.
Import Ext.

Record EmbedRequest := { embed_model : string; input : list string }.

Section vectors.

(** The vectors of an embed response: arrays of numbers, of which no
    statement of the source reads a component. *)
Context {vector : Type}.

(** What [ollama.embed] gives back: the [embeddings] of the response, one
    vector for each input, or a failure. *)
Inductive embed_outcome :=
| Embedded (embeddings : list vector)
| EmbedFails (err : Error).

(** A vector read as an entry of the [embeddings] array: an array of
    numbers has no [text] property. *)
Definition entry (v : vector) : Embedding := {| text := None |}.

Inductive notice :=
| ShowInformationMessage (text : string)
| Reported (e : effect).

(** [createEmbeddings] from the contents of the files found (l.78-87):
    the value of the global [embeddings] afterwards and the calls to the
    host.  The assignment of l.83 is to an identifier that the module does
    not declare: in strict code it stores only if the global object has the
    property, and throws otherwise, inside the [try], so that the [catch]
    reports it and the information message is not reached. *)
Definition createEmbeddings (global_embeddings : option (list Embedding))
    (g : Globals) (fileContents : list string)
    (embed : EmbedRequest → embed_outcome)
    : option (list Embedding) * list notice :=
  match embed {| embed_model := embedModel g; input := fileContents |} with
  | Embedded response_embeddings =>
      match global_embeddings with
      | Some _ =>
          (Some (entry <$> response_embeddings),
           [ShowInformationMessage "Embeddings created successfully."])
      | None =>
          (None, Reported <$> handleError (ReferenceError "embeddings"))
      end
  | EmbedFails err => (global_embeddings, Reported <$> handleError err)
  end.

End vectors.

Global Arguments embed_outcome : clear implicits.

End Embeddings.

(** *** The message handler of the chat panel *)

Module ChatPanel.

(** The stream that [ollama.chat] gives: the [message.content] of the
    parts that arrive, and the text of the error that ends it, if any (a
    rejected call is an error before the first part). *)
Record chat_outcome := { parts : list string; failure : option string }.

(** The [text] of the [chatResponse] messages posted to the webview, in
    order. *)
Definition onDidReceiveMessage (g : Ext.Globals) (chat : Chat.ChatRequest → chat_outcome)
    (message : Chat.Message) : list string :=
  match Chat.chat_request g message with
  | None => []
  | Some request =>
      let outcome := chat request in
      Chat.posted "" (parts outcome) ++
      match failure outcome with
      | Some err => ["Error: " +:+ err]
      | None => []
      end
  end.

End ChatPanel.

(** *** The tracker and the edits *)

Module Track.
Import Editor Stream.

(** The text inserted so far. *)
Definition inserted (st : State) : string := Text.cat (snd <$> edits st).

(** A flowing stream whose selection end is the tracker, the tracker not
    before the trigger position. *)
Definition live (st : State) : Prop :=
  response st = Flowing
  ∧ sel_end (selection st) = currentPosition st
  ∧ isBefore (currentPosition st) (position st) = false.

(** The events of a trace in which the response is read and the edits
    resolve, in the order of their calls, and nothing else happens: no
    cancellation, no change of the selection from outside, no end of the
    response. *)
Definition undisturbed (e : event) : Prop :=
  match e with
  | Read _ false | Applied 0 => True
  | _ => False
  end.

(** An event other than an edit that resolves before an older one. *)
Definition in_order (e : event) : Prop :=
  match e with
  | Applied (S _) => False
  | _ => True
  end.

Definition delivered (evs : list event) : list chunk :=
  evs ≫= λ e, match e with Read chunks _ => chunks | _ => [] end.

(** The trace in which each fragment is read alone and its edit resolves
    before the next one is read. *)
Definition in_turn (fragments : list string) : list event :=
  fragments ≫= λ t, [Read [Parsed t] false; Applied 0].

(** What every step keeps of the edits and the tracker: the tracker is
    where the texts of the handlers that have resumed, inserted one after
    the other from the trigger position in the order in which they
    resumed, would end; these texts and those of the handlers still at
    their await are the texts of the edit calls, in some order. *)
Definition tracked (trigger : Position) (st : State) : Prop :=
  position st = trigger
  ∧ ∃ resumed : list string,
      resumed ++ pending st ≡ₚ snd <$> edits st
      ∧ currentPosition st = newPosition trigger (Text.cat resumed).

(** The same while the edits resolve in the order of their calls: the
    texts of the edit calls are those of the resumed handlers followed by
    those of the waiting ones. *)
Definition tracked_in_order (trigger : Position) (st : State) : Prop :=
  position st = trigger
  ∧ ∃ resumed : list string,
      snd <$> edits st = resumed ++ pending st
      ∧ currentPosition st = newPosition trigger (Text.cat resumed).

End Track.

(** *** Shapes of a completion item *)

Module Item.
Import Provider.

(** The item as it is before the preview branch. *)
Definition placeholder_shape (item : CompletionItem) : Prop :=
  label item = "Autocomplete with Ollama" ∧ insertText item = SnippetString "${1:}".

(** An item that carries a preview: the insert text is the label, which
    is not empty and does not start with white space. *)
Definition preview_shape (item : CompletionItem) : Prop :=
  insertText item = Text (label item)
  ∧ label item ≠ ""
  ∧ JS.trimStart (label item) = label item.

End Item.

(** * Properties *)

(** ** The primitives on concrete inputs *)

Section primitives.

Example substring_clamps : JS.substring (-1) 2 "abcd" = "ab".
Proof. reflexivity. Qed.

Example substring_swaps : JS.substring 3 1 "abcd" = "bc".
Proof. reflexivity. Qed.

Example substring_past_end : JS.substring 7 4 "abcd" = "".
Proof. reflexivity. Qed.

Example replace_first_only : JS.replace "ab" "x" "cabab" = "cxab".
Proof. reflexivity. Qed.

Example replace_absent : JS.replace "ab" "x" "cba" = "cba".
Proof. reflexivity. Qed.

Example replace_dollar_patterns :
  JS.replace "b" "[$$|$&|$`|$'|$1]" "abc" = "a[$|b|a|c|$1]c".
Proof. reflexivity. Qed.

Example split_lines :
  JS.split JS.LF (String "a" (String JS.LF (String JS.LF "b"))) = ["a"; ""; "b"].
Proof. reflexivity. Qed.

Example split_empty : JS.split JS.LF "" = [""].
Proof. reflexivity. Qed.

Example join_undefined :
  JS.join "," [Some "a"; None; Some "b"] = "a,,b" ∧ JS.join "," [] = "".
Proof. split; reflexivity. Qed.

Example trim_both : JS.trim "  a b  " = "a b" ∧ JS.trimStart "  a b  " = "a b  ".
Proof. split; reflexivity. Qed.

Example or_default :
  JS.or (JS.Num 0) (JS.Num 7) = JS.Num 7 ∧ JS.or (JS.Str "x") (JS.Str "") = JS.Str "x".
Proof. split; reflexivity. Qed.

Example reversed_selection_end :
  Editor.sel_end {| Editor.anchor := Sample.at_ 2 4; Editor.active := Sample.at_ 1 9 |}
  = Sample.at_ 2 4.
Proof. reflexivity. Qed.

End primitives.

(** ** Strings *)

Section strings.
Implicit Types s t pat : string.

Lemma string_app_nil_l s : "" +:+ s = s.
Proof. reflexivity. Qed.

Lemma string_app_cons c s t : String c s +:+ t = String c (s +:+ t).
Proof. reflexivity. Qed.

Lemma string_app_nil_r s : s +:+ "" = s.
Proof. induction s as [|c s IH]; [done|]. by rewrite string_app_cons, IH. Qed.

Lemma string_app_assoc s t u : (s +:+ t) +:+ u = s +:+ t +:+ u.
Proof. induction s as [|c s IH]; [done|]. by rewrite !string_app_cons, IH. Qed.

Lemma prefix_app pat t : String.prefix pat (pat +:+ t) = true.
Proof.
  induction pat as [|c pat IH]; [by destruct t|].
  rewrite string_app_cons. simpl. by destruct (ascii_dec c c).
Qed.

Lemma prefix_split pat s :
  String.prefix pat s = true → s = pat +:+ JS.drop (String.length pat) s.
Proof.
  revert s. induction pat as [|c pat IH]; intros s H; [done|].
  destruct s as [|d s]; [done|]. simpl in H.
  destruct (ascii_dec c d) as [->|]; [|done].
  rewrite string_app_cons. simpl. f_equal. by apply IH.
Qed.

Lemma includes_eq pat s :
  JS.includes pat s =
  String.prefix pat s ||
  match s with EmptyString => false | String _ r => JS.includes pat r end.
Proof. by destruct s. Qed.

Lemma includes_here pat t : JS.includes pat (pat +:+ t) = true.
Proof. by rewrite includes_eq, prefix_app. Qed.

Lemma includes_app_r pat s t :
  JS.includes pat t = true → JS.includes pat (s +:+ t) = true.
Proof.
  intros H. induction s as [|c s IH]; [done|].
  rewrite string_app_cons, includes_eq, IH. apply orb_true_r.
Qed.

Lemma includes_middle pat s t : JS.includes pat (s +:+ pat +:+ t) = true.
Proof. apply includes_app_r, includes_here. Qed.

Lemma length_drop n s : String.length (JS.drop n s) = (String.length s - n)%nat.
Proof.
  revert s. induction n as [|n IH]; intros [|c s]; simpl; done.
Qed.

Lemma substring_all s : String.substring 0 (String.length s) s = s.
Proof. induction s as [|c s IH]; [done|]. simpl. by rewrite IH. Qed.

Lemma substring_drop n s :
  String.substring n (String.length s - n) s = JS.drop n s.
Proof.
  revert s. induction n as [|n IH]; intros s.
  - rewrite Nat.sub_0_r, substring_all. by destruct s.
  - destruct s as [|c s]; [done|]. simpl. apply IH.
Qed.

(** A string is its dropped part after its first [n] units. *)
Lemma take_drop n s : String.substring 0 n s +:+ JS.drop n s = s.
Proof.
  revert s. induction n as [|n IH]; intros [|c s]; simpl; try done.
  rewrite string_app_cons. by rewrite IH.
Qed.

End strings.

(** ** Configuration snapshot *)

Section configuration.
Import Config.
Implicit Types store : gmap string JS.value.

Lemma get_absent store k : store !! k = None → get store k = JS.Undefined.
Proof. unfold get. by intros ->. Qed.

(** [a || d] is never [undefined] or [null] when [d] is not. *)
Lemma or_not_nullish a d : JS.nullish d = false → JS.nullish (JS.or a d) = false.
Proof. unfold JS.or. by destruct a as [| |[]|n|s]; simpl; try destruct (_ =? _); try case_bool_decide. Qed.

Lemma request_fields_defined store :
  Forall (λ v, JS.nullish v = false) (request_fields (updateVSConfig store)).
Proof.
  unfold request_fields, updateVSConfig.
  cbv [apiEndpoint apiModel apiMessageHeader embedModel numPredict
       promptWindowSize responsePreviewMaxTokens apiTemperature].
  repeat constructor; by apply or_not_nullish.
Qed.

(** With nothing stored, the variables hold the defaults and the two
    flags are unset. *)
Lemma empty_store_globals :
  Ext.of_snapshot (updateVSConfig ∅)
  = Some {| Ext.apiEndpoint := ""; Ext.apiModel := "";
            Ext.apiMessageHeader := ""; Ext.apiTemperature := 0;
            Ext.embedModel := ""; Ext.numPredict := 0;
            Ext.promptWindowSize := 0; Ext.completionKeys := " ";
            Ext.responsePreview := None;
            Ext.responsePreviewMaxTokens := 0;
            Ext.responsePreviewDelay := 0;
            Ext.continueInline := None |}.
Proof. reflexivity. Qed.

End configuration.

(** C4, as the claim states it, fails: with nothing stored, the snapshot's
    [responsePreview] (and [continueInline]) is [undefined], which is none
    of the defaults the claim lists. *)
Lemma snapshot_defaults_counterexample :
  (∅ : gmap string JS.value) !! Config.key Config.ResponsePreview = None
  ∧ Config.responsePreview (Config.updateVSConfig ∅) = JS.Undefined
  ∧ Config.continueInline (Config.updateVSConfig ∅) = JS.Undefined
  ∧ ¬ (∀ (store : gmap string JS.value) (o : Config.option_name),
         store !! Config.key o = None →
         Config.field o (Config.updateVSConfig store) ∈ [JS.Str ""; JS.Num 0; JS.Str " "]).
Proof.
  assert (Config.field Config.ResponsePreview (Config.updateVSConfig ∅) = JS.Undefined)
    as E by reflexivity.
  split_and!; [reflexivity..|].
  intros H. specialize (H ∅ Config.ResponsePreview eq_refl).
  rewrite E in H.
  repeat (apply elem_of_cons in H as [H|H]; [discriminate H|]).
  by apply elem_of_nil in H.
Qed.

(** C4, amended: refreshing the snapshot stores the empty string for an
    absent string option, zero for an absent numeric option and one space
    for the absent trigger-key set; the two flags (response preview,
    continue inline) are stored as read, so they are [undefined] when
    absent.  Whatever is stored, no variable that goes into a prompt or a
    request body is [undefined] or [null]. *)
Theorem snapshot_defaults (store : gmap string JS.value) (o : Config.option_name)
    (Habsent : store !! Config.key o = None) :
  match Config.documented_default (Config.kind_of o) with
  | Some d => Config.field o (Config.updateVSConfig store) = d
  | None => Config.field o (Config.updateVSConfig store) = JS.Undefined
  end
  ∧ (Config.kind_of o ≠ Config.Flag →
       JS.nullish (Config.field o (Config.updateVSConfig store)) = false)
  ∧ Forall (λ v, JS.nullish v = false)
       (Config.request_fields (Config.updateVSConfig store)).
Proof.
  pose proof (get_absent _ _ Habsent) as Hget. clear Habsent.
  split_and!; [| |apply request_fields_defined];
    destruct o; cbv [Config.key] in Hget;
    cbv [Config.field Config.updateVSConfig Config.kind_of
         Config.documented_default Config.apiEndpoint Config.apiModel
         Config.apiMessageHeader Config.numPredict Config.promptWindowSize
         Config.completionKeys Config.responsePreview
         Config.responsePreviewMaxTokens Config.responsePreviewDelay
         Config.continueInline Config.apiTemperature];
    rewrite Hget; done.
Qed.

Lemma snapshot_defaults_witness :
  Config.field Config.CompletionKeys
    (Config.updateVSConfig {[ "model" := JS.Str "llama3" ]}) = JS.Str " ".
Proof.
  apply (snapshot_defaults {[ "model" := JS.Str "llama3" ]} Config.CompletionKeys).
  vm_compute. reflexivity.
Defined.

(** ** Error reporter *)

(** C8: [ERR_CANCELED] is dropped without any notification; every other
    error is shown once, the text ending in its raw message; the reason
    carries the hint for [ECONNREFUSED] and for [ERR_BAD_REQUEST], and is
    the bare code otherwise. *)
Theorem error_classification (err : Ext.Error) :
  (Ext.code err = Some "ERR_CANCELED" → Ext.handleError err = [])
  ∧ (Ext.code err ≠ Some "ERR_CANCELED" →
     ∃ text,
       Ext.handleError err = [Ext.ShowErrorMessage text; Ext.ConsoleError err]
       ∧ (∃ pre, text = pre +:+ JS.to_string (Ext.message err))
       ∧ (Ext.code err = Some "ECONNREFUSED" →
            JS.includes "Ollama is likely not running" text = true)
       ∧ (Ext.code err = Some "ERR_BAD_REQUEST" →
            JS.includes "Settings are likely misconfigured" text = true)
       ∧ (Ext.code err ≠ Some "ECONNREFUSED" →
          Ext.code err ≠ Some "ERR_BAD_REQUEST" →
            text = "Ollama Autocoder encountered an error: " +:+
                   default "" (Ext.code err) +:+
                   (if bool_decide (Ext.message err = Some "") then "" else ": ") +:+
                   JS.to_string (Ext.message err))).
Proof.
  unfold Ext.handleError. split.
  - intros ->. done.
  - intros Hc. rewrite bool_decide_eq_false_2 by done.
    eexists. split; [reflexivity|]. split_and!.
    + exists ("Ollama Autocoder encountered an error: " +:+ Ext.error_reason err +:+
              (if bool_decide (Ext.message err = Some "") then "" else ": ")).
      by rewrite !string_app_assoc.
    + intros E. unfold Ext.error_reason. rewrite E. simpl.
      exact (includes_middle "Ollama is likely not running"
               "Ollama Autocoder encountered an error: ECONNREFUSED — " _).
    + intros E. unfold Ext.error_reason. rewrite E. simpl.
      exact (includes_middle "Settings are likely misconfigured"
               "Ollama Autocoder encountered an error: ERR_BAD_REQUEST — " _).
    + intros H1 H2. unfold Ext.error_reason.
      rewrite !bool_decide_eq_false_2 by done.
      destruct (Ext.code err) as [c|]; [|done].
      simpl. by case_bool_decide; subst.
Qed.

Lemma error_classification_witness :
  Ext.handleError {| Ext.code := Some "ERR_CANCELED"; Ext.message := Some "canceled" |} = []
  ∧ Ext.handleError {| Ext.code := Some "ECONNREFUSED"; Ext.message := Some "connect failed" |}
    = [Ext.ShowErrorMessage
         "Ollama Autocoder encountered an error: ECONNREFUSED — Ollama is likely not running: connect failed";
       Ext.ConsoleError {| Ext.code := Some "ECONNREFUSED"; Ext.message := Some "connect failed" |}].
Proof.
  split.
  - apply (error_classification
             {| Ext.code := Some "ERR_CANCELED"; Ext.message := Some "canceled" |}).
    reflexivity.
  - reflexivity.
Defined.

(** ** Chat *)

(** C10: the request that the chat handler sends does not depend on the
    configuration variables, and its model is always ["deepseek-r1:8b"]; an
    ["ask"] message always produces a request. *)
Theorem chat_model_fixed (g g' : Ext.Globals) (message : Chat.Message) :
  Chat.chat_request g message = Chat.chat_request g' message
  ∧ (∀ req, Chat.chat_request g message = Some req →
            Chat.chat_model req = "deepseek-r1:8b")
  ∧ (Chat.msg_command message = "ask" → is_Some (Chat.chat_request g message)).
Proof.
  unfold Chat.chat_request. split_and!; [done| |].
  - intros req. case_bool_decide; [|done]. by intros [= <-].
  - intros ->. by eexists.
Qed.

Lemma chat_model_fixed_witness :
  Chat.chat_model <$>
    Chat.chat_request (Sample.globals "" 2000 None None)
      {| Chat.msg_command := "ask"; Chat.msg_text := "Got SQL?" |}
  = Some "deepseek-r1:8b".
Proof.
  destruct (chat_model_fixed (Sample.globals "" 2000 None None)
              (Sample.globals "h" 1 (Some true) None)
              {| Chat.msg_command := "ask"; Chat.msg_text := "Got SQL?" |})
    as (_ & H & Hsome).
  destruct Hsome as [req Hreq]; [reflexivity|].
  rewrite Hreq. simpl. f_equal. apply H, Hreq.
Defined.

(** ** Prompt window *)

Section prompt_window.
Import Editor Ext.

(** [substring] from a start that is not negative up to the end of the
    string is the string without its first units. *)
Lemma substring_to_end (a : Z) (s : string) :
  0 ≤ a →
  JS.substring a (Z.of_nat (String.length s)) s
  = JS.drop (Z.to_nat (Z.min a (Z.of_nat (String.length s)))) s.
Proof.
  intros Ha. unfold JS.substring, JS.clamp.
  set (len := Z.of_nat (String.length s)) in *.
  assert (0 ≤ len) as Hlen by (subst len; lia).
  assert (Z.min (Z.max a 0) len = Z.min a len) as -> by lia.
  assert (Z.min (Z.max len 0) len = len) as -> by lia.
  assert (Z.min (Z.min a len) len = Z.min a len) as -> by lia.
  assert (Z.max (Z.min a len) len = len) as -> by lia.
  replace (Z.to_nat (len - Z.min a len))
    with (String.length s - Z.to_nat (Z.min a len))%nat by (subst len; lia).
  apply substring_drop.
Qed.

(** What the clipping statement computes, for any window size. *)
Lemma clipped_prompt_drop g document position :
  let before := getText document {| range_start := file_start; range_end := position |} in
  let L := Z.of_nat (String.length before) in
  clipped_prompt g document position =
  JS.drop (Z.to_nat (L - Z.min L (Z.max 0 (promptWindowSize g)))) before.
Proof.
  intros before L. subst before L. unfold clipped_prompt. cbv zeta.
  rewrite substring_to_end by lia.
  f_equal. lia.
Qed.

End prompt_window.

Section window_slice.
Import Editor Ext.

Lemma length_take n s :
  String.length (String.substring 0 n s) = Nat.min n (String.length s).
Proof.
  revert n. induction s as [|c s IH]; intros [|n]; [done..|].
  cbn. by rewrite IH.
Qed.

(** The slice for a window size that is not negative. *)
Lemma clipped_prompt_window g document position :
  0 ≤ promptWindowSize g →
  let before := getText document {| range_start := file_start; range_end := position |} in
  let L := Z.of_nat (String.length before) in
  clipped_prompt g document position
  = JS.drop (Z.to_nat (L - Z.min L (promptWindowSize g))) before.
Proof.
  intros HW before L. subst before L. rewrite clipped_prompt_drop.
  f_equal. lia.
Qed.

End window_slice.

(** C9: for a document whose text from the file start to the cursor has
    length [L], and a window size [W] (a count of characters, so not
    negative), the slice that the prompt ends with has length exactly
    [min(L, W)] and is the last [min(L, W)] characters of the text before
    the cursor: that text is some [L - min(L, W)] characters followed by
    the slice.  The prompt of the preview request, and that of the legacy
    streaming request, is the substituted header followed by the slice. *)
Theorem prompt_window_clipping (g : Ext.Globals) (workspace_name : option string)
    (document : Editor.TextDocument) (position : Editor.Position)
    (Hwindow : 0 ≤ Ext.promptWindowSize g) :
  let before := Editor.getText document
                  {| Editor.range_start := Editor.file_start;
                     Editor.range_end := position |} in
  let L := Z.of_nat (String.length before) in
  let W := Ext.promptWindowSize g in
  let slice := Ext.clipped_prompt g document position in
  let header := Ext.messageHeaderSub g workspace_name document in
  Z.of_nat (String.length slice) = Z.min L W
  ∧ slice = JS.drop (Z.to_nat (L - Z.min L W)) before
  ∧ (∃ skipped, before = skipped +:+ slice
                ∧ Z.of_nat (String.length skipped) = L - Z.min L W)
  ∧ Ext.prompt (Ext.previewRequest g
        (Ext.previewInput g workspace_name document position))
    = header +:+ slice
  ∧ Ext.prompt (Ext.legacyRequest g workspace_name document position)
    = header +:+ slice.
Proof.
  intros before L W slice header.
  assert (slice = JS.drop (Z.to_nat (L - Z.min L W)) before) as Hslice
    by (by apply clipped_prompt_window).
  split_and!; [| done | | done | done].
  - rewrite Hslice, length_drop. subst L. lia.
  - exists (String.substring 0 (Z.to_nat (L - Z.min L W)) before). split.
    + by rewrite Hslice, take_drop.
    + rewrite length_take. subst L. lia.
Qed.

Lemma prompt_window_clipping_witness :
  Ext.clipped_prompt (Sample.globals "" 3 None None)
    (Sample.document "SELECT") (Sample.at_ 0 6) = "ECT"
  ∧ Ext.prompt (Ext.legacyRequest (Sample.globals "-- sql " 4 None None) None
                  (Sample.document "SELECT") (Sample.at_ 0 6)) = "-- sql LECT".
Proof.
  split.
  - destruct (prompt_window_clipping (Sample.globals "" 3 None None) None
                (Sample.document "SELECT") (Sample.at_ 0 6))
      as (_ & H & _); [vm_compute; discriminate|].
    exact H.
  - destruct (prompt_window_clipping (Sample.globals "-- sql " 4 None None) None
                (Sample.document "SELECT") (Sample.at_ 0 6))
      as (_ & _ & _ & _ & H); [vm_compute; discriminate|].
    exact H.
Defined.

(** ** Prompt assembly *)

(** C6 fails of the source.  The module declares no [embeddings], so for
    every configuration, workspace name, document and position the read at
    l.100 throws: no prompt is assembled and no request is made, whether or
    not embeddings were asked for before.  The source's own next line
    (l.101) shows what was meant to be built. *)
Theorem prompt_assembly_fails (g : Ext.Globals) (workspace_name : option string)
    (document : Editor.TextDocument) (position : Editor.Position) :
  Ext.completeInput Ext.module_embeddings g workspace_name document position
  = inl (Ext.ReferenceError "embeddings")
  ∧ Ext.autocompleteRequest Ext.module_embeddings g workspace_name document position
    = inl (Ext.ReferenceError "embeddings")
  ∧ Ext.message (Ext.ReferenceError "embeddings") = Some "embeddings is not defined".
Proof. done. Qed.

(** ** Preview completion item *)

Section preview.

(** Without white space at its end, a response trimmed at its start is
    trimmed. *)
Lemma trim_trimStart (r : string) : JS.trimEnd r = r → JS.trim r = JS.trimStart r.
Proof.
  unfold JS.trim. induction r as [|c r IH]; [done|].
  intros H. cbn [JS.trimStart].
  destruct (JS.is_white c) eqn:Hc; [|done].
  cbn [JS.trimEnd] in H. rewrite Hc in H. cbn [andb] in H.
  case_bool_decide as Hr; [done|].
  injection H as H. by apply IH.
Qed.

End preview.

(** C7, as the claim states it, fails: white space at the end of the
    response is not removed from the label and the insert text, though the
    trimmed value is ["SELECT * FROM t"]. *)
Lemma preview_item_counterexample :
  let g := Sample.globals "" 2000 (Some true) (Some false) in
  let post := λ _, Provider.Succeeds "SELECT * FROM t " in
  JS.trim "SELECT * FROM t " = "SELECT * FROM t"
  ∧ ∃ item,
      Provider.provideCompletionItems g false post None
        (Sample.document "SEL") (Sample.at_ 0 3) = ([item], [])
      ∧ Provider.label item = "SELECT * FROM t "
      ∧ Provider.label item ≠ "SELECT * FROM t"
      ∧ Provider.insertText item ≠ Provider.Text "SELECT * FROM t"
      ∧ Provider.item_command item = None.
Proof.
  split; [reflexivity|]. eexists. split; [reflexivity|].
  split_and!; [reflexivity|discriminate|discriminate|reflexivity].
Qed.

(** C7, amended: with [responsePreview] true, [continueInline] false or
    unset, no cancellation and a preview request answered by a response
    that is not blank, the label and the insert text of the returned item
    are the response without its leading white space, and the item has no
    command; they equal the trimmed response when the response has no
    white space at its end. *)
Theorem preview_item (g : Ext.Globals) (post : Ext.RequestBody → Provider.outcome)
    (workspace_name : option string) (document : Editor.TextDocument)
    (position : Editor.Position) (response : string)
    (Hpreview : Ext.responsePreview g = Some true)
    (Hinline : Provider.truth (Ext.continueInline g) = false)
    (Hpost : post (Ext.previewRequest g
                     (Ext.previewInput g workspace_name document position))
             = Provider.Succeeds response)
    (Hresponse : JS.trim response ≠ "") :
  Provider.provideCompletionItems g false post workspace_name document position
  = ([{| Provider.label := JS.trimStart response;
         Provider.insertText := Provider.Text (JS.trimStart response);
         Provider.documentation :=
           Some "Press `Enter` to get an autocompletion from Ollama";
         Provider.item_command := None |}], [])
  ∧ (JS.trimEnd response = response → JS.trimStart response = JS.trim response).
Proof.
  split; [|by intros ?%trim_trimStart].
  unfold Provider.provideCompletionItems.
  rewrite Hpreview, Hinline. simpl. rewrite Hpost.
  by rewrite bool_decide_eq_true_2.
Qed.

Lemma preview_item_witness :
  Provider.provideCompletionItems (Sample.globals "" 2000 (Some true) (Some false))
    false (λ _, Provider.Succeeds "  SELECT * FROM t") None
    (Sample.document "SEL") (Sample.at_ 0 3)
  = ([{| Provider.label := "SELECT * FROM t";
         Provider.insertText := Provider.Text "SELECT * FROM t";
         Provider.documentation :=
           Some "Press `Enter` to get an autocompletion from Ollama";
         Provider.item_command := None |}], []).
Proof.
  apply (preview_item (Sample.globals "" 2000 (Some true) (Some false))
           (λ _, Provider.Succeeds "  SELECT * FROM t") None
           (Sample.document "SEL") (Sample.at_ 0 3) "  SELECT * FROM t");
    [reflexivity|reflexivity|reflexivity|vm_compute; discriminate].
Defined.

(** ** Header substitution *)

Section header.
Implicit Types s t pat v : string.

Lemma count_app c s t : JS.count c (s +:+ t) = (JS.count c s + JS.count c t)%nat.
Proof.
  induction s as [|d s IH]; [done|].
  rewrite string_app_cons. cbn [JS.count]. rewrite IH. lia.
Qed.

Lemma drop_app s t : JS.drop (String.length s) (s +:+ t) = t.
Proof. induction s as [|c s IH]; [by destruct t|]. by rewrite string_app_cons. Qed.

(** A replacement text without [$] stands for itself. *)
Lemma getSubstitution_plain matched before after v :
  JS.count "$" v = 0%nat → JS.getSubstitution matched before after v = v.
Proof.
  induction v as [|c v IH]; [done|].
  cbn [JS.count]. case_bool_decide as Hc; [done|]. intros Hv.
  assert (JS.getSubstitution matched before after (String c v)
          = String c (JS.getSubstitution matched before after v)) as ->.
  { destruct c as [[] [] [] [] [] [] [] []]; try done. }
  by rewrite IH.
Qed.

Lemma replace_from_eq pat v before s :
  JS.replace_from pat v before s =
  if String.prefix pat s then
    JS.getSubstitution pat before (JS.drop (String.length pat) s) v
    +:+ JS.drop (String.length pat) s
  else match s with
       | EmptyString => EmptyString
       | String c r => String c (JS.replace_from pat v (before +:+ String c "") r)
       end.
Proof. by destruct s. Qed.

Lemma prefix_inv pat s : String.prefix pat s = true → ∃ t, s = pat +:+ t.
Proof. intros H. eexists. by apply prefix_split. Qed.

Lemma replace_from_prefix pat v before t :
  JS.count "$" v = 0%nat → JS.replace_from pat v before (pat +:+ t) = v +:+ t.
Proof.
  intros Hv. by rewrite replace_from_eq, prefix_app, drop_app, getSubstitution_plain.
Qed.

(** An occurrence of the pattern carries all units of the pattern. *)
Lemma includes_count c pat s :
  JS.includes pat s = true → (JS.count c pat ≤ JS.count c s)%nat.
Proof.
  induction s as [|d s IH]; rewrite includes_eq; intros [H|H]%orb_true_iff;
    try done.
  - destruct (prefix_inv _ _ H) as [t E]. rewrite E, count_app. lia.
  - destruct (prefix_inv _ _ H) as [t E]. rewrite E, count_app. lia.
  - cbn [JS.count]. specialize (IH H). lia.
Qed.

(** Replacing an occurring pattern that has one brace by a text that has
    none (and no [$]) removes one brace. *)
Lemma replace_from_count pat v before s :
  JS.count "{" pat = 1%nat → JS.count "{" v = 0%nat → JS.count "$" v = 0%nat →
  JS.includes pat s = true →
  S (JS.count "{" (JS.replace_from pat v before s)) = JS.count "{" s.
Proof.
  intros Hpat Hv Hd. revert before.
  induction s as [|d s IH]; intros before Hinc.
  - destruct (String.prefix pat "") eqn:Hp.
    + destruct (prefix_inv _ _ Hp) as [t E].
      rewrite E, replace_from_prefix, !count_app by done. lia.
    + rewrite includes_eq in Hinc. by rewrite Hp in Hinc.
  - destruct (String.prefix pat (String d s)) eqn:Hp.
    + destruct (prefix_inv _ _ Hp) as [t E].
      rewrite E, replace_from_prefix, !count_app by done. lia.
    + rewrite includes_eq, Hp in Hinc. rewrite replace_from_eq, Hp.
      cbn [JS.count]. specialize (IH (before +:+ String d "") Hinc). lia.
Qed.

End header.

Section header_survival.
Implicit Types s v before : string.

Lemma prefix_nil s : String.prefix "" s = true.
Proof. by destruct s. Qed.

Lemma prefix_cons c pat s :
  String.prefix (String c pat) (String c s) = String.prefix pat s.
Proof. cbn [String.prefix]. by destruct (ascii_dec c c). Qed.

(** No match at the head: the search moves on by one unit. *)
Lemma replace_from_skip pat v before c r :
  String.prefix pat (String c r) = false →
  JS.replace_from pat v before (String c r)
  = String c (JS.replace_from pat v (before +:+ String c "") r).
Proof. intros H. by rewrite replace_from_eq, H. Qed.

(** Replacing one placeholder leaves an occurrence of another in place:
    the two cannot overlap, as a brace only opens a placeholder. *)
Local Ltac survive IH :=
  let H := fresh "H" in
  let Hp := fresh "Hp" in
  let t := fresh "t" in
  let E := fresh "E" in
  intros H; rewrite replace_from_eq;
  lazymatch goal with
  | |- context [String.prefix ?A ?u] =>
      destruct (String.prefix A u) eqn:Hp;
      [ destruct (prefix_inv _ _ Hp) as [t E];
        rewrite E in H |- *; rewrite drop_app;
        apply includes_app_r; exact H
      | rewrite includes_eq in H; apply orb_true_iff in H as [H|H];
        [ cbn [String.prefix] in H;
          lazymatch type of H with
          | context [ascii_dec ?a ?c] => destruct (ascii_dec a c) as [<-|]; [|done]
          end;
          destruct (prefix_inv _ _ H) as [t ->];
          rewrite includes_eq; apply orb_true_iff; left;
          repeat (rewrite string_app_cons, replace_from_skip by reflexivity);
          rewrite !prefix_cons; apply prefix_nil
        | rewrite includes_eq, (IH _ H); apply orb_true_r ] ]
  end.

Lemma file_name_survives_lang v before s :
  JS.includes "{FILE_NAME}" s = true →
  JS.includes "{FILE_NAME}" (JS.replace_from "{LANG}" v before s) = true.
Proof. revert before. induction s as [|c s IH]; intros before; [done|]. survive IH. Qed.

Lemma project_name_survives_lang v before s :
  JS.includes "{PROJECT_NAME}" s = true →
  JS.includes "{PROJECT_NAME}" (JS.replace_from "{LANG}" v before s) = true.
Proof. revert before. induction s as [|c s IH]; intros before; [done|]. survive IH. Qed.

Lemma project_name_survives_file_name v before s :
  JS.includes "{PROJECT_NAME}" s = true →
  JS.includes "{PROJECT_NAME}" (JS.replace_from "{FILE_NAME}" v before s) = true.
Proof. revert before. induction s as [|c s IH]; intros before; [done|]. survive IH. Qed.

(** The search for a placeholder passes over literal text. *)
Lemma replace_from_literal (p : Template.placeholder) v before lit s :
  JS.count "{" lit = 0%nat →
  JS.replace_from (Template.name p) v before (lit +:+ s)
  = lit +:+ JS.replace_from (Template.name p) v (before +:+ lit) s.
Proof.
  revert before. induction lit as [|c lit IH]; intros before Hlit.
  - by rewrite string_app_nil_r.
  - cbn [JS.count] in Hlit. case_bool_decide as Hc; [done|].
    rewrite !string_app_cons, replace_from_skip.
    + rewrite IH by done. do 3 f_equal.
      by rewrite string_app_assoc.
    + destruct p; cbn [Template.name String.prefix];
        by destruct (ascii_dec "{" c); [subst|].
Qed.

(** It passes over another placeholder as well. *)
Lemma replace_from_other (p q : Template.placeholder) v before s :
  p ≠ q →
  ∃ before', JS.replace_from (Template.name p) v before (Template.name q +:+ s)
             = Template.name q +:+ JS.replace_from (Template.name p) v before' s.
Proof.
  intros Hpq. destruct p, q; try done; cbn [Template.name];
    repeat (rewrite string_app_cons, replace_from_skip by reflexivity);
    rewrite string_app_nil_l; by eexists.
Qed.

Lemma fill_first_well_formed p v toks :
  JS.count "{" v = 0%nat →
  Forall Template.well_formed toks →
  Forall Template.well_formed (Template.fill_first p v toks).
Proof.
  intros Hv. induction 1 as [|[s|q] toks Ht Htoks IH]; cbn [Template.fill_first].
  - constructor.
  - by constructor.
  - case_bool_decide; by constructor.
Qed.

(** One [replace] fills the first hole of its placeholder. *)
Lemma replace_from_render p v before toks :
  JS.count "$" v = 0%nat →
  Forall Template.well_formed toks →
  JS.replace_from (Template.name p) v before (Template.render toks)
  = Template.render (Template.fill_first p v toks).
Proof.
  intros Hv Htoks. revert before.
  induction Htoks as [|[s|q] toks Ht Htoks IH]; intros before;
    cbn [Template.render Template.fill_first].
  - by destruct p.
  - by rewrite replace_from_literal, IH.
  - case_bool_decide as Hpq.
    + subst q. by rewrite replace_from_prefix.
    + destruct (replace_from_other p q v before (Template.render toks) Hpq)
        as [before' ->].
      by rewrite IH.
Qed.

(** A text without braces contains no placeholder. *)
Lemma no_brace_no_placeholder pat s :
  JS.count "{" pat = 1%nat → JS.count "{" s = 0%nat → JS.includes pat s = false.
Proof.
  intros Hpat Hs. destruct (JS.includes pat s) eqn:H; [|done].
  apply (includes_count "{") in H. lia.
Qed.

End header_survival.

(** C5 fails of the source.  [replace] with a string pattern replaces the
    first occurrence only, so a template that names a placeholder twice
    keeps the second token; and the replacement text is read for [$]
    patterns, so a file name with [$&] in it puts the token back, in a
    template that names each placeholder once. *)
Theorem header_substitution_fails :
  let template := "{LANG} {LANG} {FILE_NAME} {PROJECT_NAME}" in
  let g := Sample.globals template 2000 None None in
  let header := Ext.messageHeaderSub g None (Sample.document "") in
  let g' := Sample.globals "{LANG} {FILE_NAME} {PROJECT_NAME}" 2000 None None in
  let document' := {| Editor.languageId := "sql"; Editor.fileName := "q$&.sql";
                      Editor.getText := λ _, "" |} in
  let header' := Ext.messageHeaderSub g' None document' in
  JS.includes "{LANG}" template = true
  ∧ JS.includes "{FILE_NAME}" template = true
  ∧ JS.includes "{PROJECT_NAME}" template = true
  ∧ header = "sql {LANG} q.sql Untitled"
  ∧ JS.includes "{LANG}" header = true
  ∧ header' = "sql q{FILE_NAME}.sql Untitled"
  ∧ JS.includes "{FILE_NAME}" header' = true.
Proof. split_and!; reflexivity. Qed.

(** ** Tracker arithmetic *)

Section tracker.
Import Editor Stream.
Implicit Types s : string.

Lemma split_length c s : length (JS.split c s) = S (JS.count c s).
Proof.
  induction s as [|d s IH]; [done|]. cbn [JS.split JS.count].
  case_bool_decide; [cbn [length]; rewrite IH; lia|].
  destruct (JS.split c s) as [|h t]; [done|]. cbn [length] in *. lia.
Qed.

Lemma after_last_none c s : JS.count c s = 0%nat → after_last c s = s.
Proof.
  destruct s as [|d s]; [done|]. cbn [JS.count after_last].
  case_bool_decide; [done|]. cbn [Nat.add]. by intros ->.
Qed.

(** The last piece of the split is the text after the last separator. *)
Lemma split_last c s : List.last (JS.split c s) "" = after_last c s.
Proof.
  induction s as [|d s IH]; [done|].
  pose proof (split_length c s) as Hlen.
  cbn [JS.split after_last]. destruct (JS.split c s) as [|h t]; [done|].
  destruct (JS.count c s) as [|n] eqn:Hn; cbn [Nat.ltb Nat.leb].
  - destruct t; [|done]. cbn [List.last] in IH. rewrite after_last_none in IH by done.
    case_bool_decide; by subst.
  - destruct t as [|h' t]; [done|]. rewrite <- IH. by case_bool_decide.
Qed.

(** [after_last] is what its name says whenever there is a separator. *)
Lemma after_last_spec c s :
  (0 < JS.count c s)%nat →
  JS.count c (after_last c s) = 0%nat
  ∧ ∃ pre, s = pre +:+ String c (after_last c s).
Proof.
  induction s as [|d s IH]; [cbn; lia|]. cbn [JS.count after_last]. intros H.
  destruct (JS.count c s) as [|n] eqn:Hn; cbn [Nat.ltb Nat.leb].
  - case_bool_decide as Hd; [|cbn in H; lia]. subst d. split; [done|]. by exists "".
  - destruct IH as [Hc [pre Hpre]]; [lia|]. split; [done|].
    exists (String d pre). by rewrite string_app_cons, <- Hpre.
Qed.

(** The source's tracker arithmetic is the specification's. *)
Lemma newPosition_spec cur s : newPosition cur s = spec_tracker cur s.
Proof.
  unfold newPosition, spec_tracker. rewrite split_length, split_last.
  destruct (JS.count JS.LF s) as [|n] eqn:Hn; cbn [Nat.eqb Nat.ltb Nat.leb].
  - rewrite after_last_none by done. f_equal; lia.
  - f_equal; lia.
Qed.

Lemma position_differs (p q : Position) :
  p ≠ q ↔ line p ≠ line q ∨ character p ≠ character q.
Proof.
  destruct p as [l c], q as [l' c']; simpl. split.
  - intros H. destruct (decide (l = l')) as [->|]; [|by left].
    right. by intros ->.
  - by intros [H|H] [= ??].
Qed.

End tracker.

(** ** The apply loop *)

Section apply_loop.
Import Editor Stream.
Implicit Types st : State.

Lemma not_in_snoc (x y : string) l : x ≠ y → x ∉ l → x ∉ l ++ [y].
Proof.
  intros Hne Hl [?|?%list_elem_of_singleton]%elem_of_app; done.
Qed.

Lemma not_in_replicate (x y : string) l n : x ≠ y → x ∉ l → x ∉ l ++ replicate n y.
Proof.
  intros Hne Hl [?|[? ?]%elem_of_replicate]%elem_of_app; done.
Qed.

(** The test of l.149 is the test that the selection end has left the
    tracker. *)
Lemma stale_decide st :
  bool_decide (line (currentPosition st) ≠ line (sel_end (selection st))
               ∨ character (currentPosition st) ≠ character (sel_end (selection st)))
  = bool_decide (stale st).
Proof.
  apply bool_decide_ext. unfold stale. rewrite <- position_differs.
  split; intros H E; by apply H.
Qed.

(** The handler when the selection end has left the tracker. *)
Lemma onData_stale d st :
  stale st → onData d st = axiosCancelPost (report "Generating..." st).
Proof.
  intros H. unfold onData. cbn zeta.
  change (currentPosition (report "Generating..." st)) with (currentPosition st).
  change (selection (report "Generating..." st)) with (selection st).
  by rewrite stale_decide, bool_decide_eq_true_2.
Qed.

(** The handler, up to its await, when the selection end is the tracker. *)
Lemma onData_live d st :
  ¬ stale st →
  onData d st =
  let st1 := report "Generating..." st in
  match d with
  | Unparsable => st1
  | Parsed completion =>
      if bool_decide (completion = "") then st1
      else
        {| position := position st; currentPosition := currentPosition st;
           selection := selection st; cancel_reason := cancel_reason st;
           response := response st; finished := finished st;
           returned := returned st;
           pending := pending st ++ [completion];
           edits := edits st ++ [(currentPosition st, completion)];
           reports := reports st ++ ["Generating..."] |}
  end.
Proof.
  intros H. unfold onData. cbn zeta.
  change (currentPosition (report "Generating..." st)) with (currentPosition st).
  change (selection (report "Generating..." st)) with (selection st).
  by rewrite stale_decide, bool_decide_eq_false_2.
Qed.

(** What no ['data'] handler changes before its await: the trigger
    position, the tracker, the selection, the response stream and the
    promise. *)
Lemma onData_frame d st :
  position (onData d st) = position st
  ∧ currentPosition (onData d st) = currentPosition st
  ∧ selection (onData d st) = selection st
  ∧ response (onData d st) = response st
  ∧ finished (onData d st) = finished st
  ∧ returned (onData d st) = returned st
  ∧ reports (onData d st) = reports st ++ ["Generating..."]
  ∧ (cancel_reason st ≠ None → cancel_reason (onData d st) = cancel_reason st).
Proof.
  destruct (decide (stale st)) as [H|H].
  - rewrite onData_stale by done. unfold axiosCancelPost, report. cbn.
    by destruct (cancel_reason st).
  - rewrite onData_live by done. cbn zeta.
    destruct d as [c|]; [case_bool_decide|]; done.
Qed.

Lemma deliver_cons d chunks st :
  deliver (d :: chunks) st = deliver chunks (onData d st).
Proof. done. Qed.

Lemma deliver_frame chunks st :
  position (deliver chunks st) = position st
  ∧ currentPosition (deliver chunks st) = currentPosition st
  ∧ selection (deliver chunks st) = selection st
  ∧ response (deliver chunks st) = response st
  ∧ finished (deliver chunks st) = finished st
  ∧ returned (deliver chunks st) = returned st
  ∧ reports (deliver chunks st) = reports st ++ replicate (length chunks) "Generating..."
  ∧ (cancel_reason st ≠ None → cancel_reason (deliver chunks st) = cancel_reason st).
Proof.
  revert st. induction chunks as [|d chunks IH]; intros st.
  - cbn. by rewrite app_nil_r.
  - rewrite deliver_cons.
    destruct (IH (onData d st)) as (I1 & I2 & I3 & I4 & I5 & I6 & I7 & I8).
    destruct (onData_frame d st) as (H1 & H2 & H3 & H4 & H5 & H6 & H7 & H8).
    split_and!; try congruence.
    + rewrite I7, H7, <- app_assoc. done.
    + intros Hr. rewrite I8; [by apply H8|]. by rewrite H8.
Qed.

Lemma stale_onData d st : stale (onData d st) ↔ stale st.
Proof.
  unfold stale. destruct (onData_frame d st) as (_ & -> & -> & _). done.
Qed.

(** The chunks of a read that meets a selection end off the tracker: the
    token is cancelled by the first of them, and none makes an edit. *)
Lemma deliver_stale chunks st :
  stale st →
  edits (deliver chunks st) = edits st
  ∧ pending (deliver chunks st) = pending st
  ∧ (chunks ≠ [] → cancel_reason (deliver chunks st) ≠ None).
Proof.
  revert st. induction chunks as [|d chunks IH]; intros st H; [done|].
  rewrite deliver_cons.
  destruct (IH (onData d st)) as (I1 & I2 & I3); [by apply stale_onData|].
  assert (cancel_reason (onData d st) ≠ None) as Hr.
  { rewrite onData_stale by done. unfold axiosCancelPost, report. cbn.
    by destruct (cancel_reason st) eqn:E; cbn; rewrite ?E. }
  destruct (deliver_frame chunks (onData d st)) as (_ & _ & _ & _ & _ & _ & _ & H8).
  split_and!.
  - rewrite I1, onData_stale by done.
    unfold axiosCancelPost, report. cbn. by destruct (cancel_reason st).
  - rewrite I2, onData_stale by done.
    unfold axiosCancelPost, report. cbn. by destruct (cancel_reason st).
  - intros _. by rewrite H8.
Qed.

Lemma texts_cons_parsed c chunks :
  c ≠ "" → texts (Parsed c :: chunks) = c :: texts chunks.
Proof.
  intros H. unfold texts.
  change (parsed (Parsed c :: chunks)) with (c :: parsed chunks).
  by rewrite filter_cons_True.
Qed.

Lemma texts_cons_empty chunks : texts (Parsed "" :: chunks) = texts chunks.
Proof.
  unfold texts.
  change (parsed (Parsed "" :: chunks)) with ("" :: parsed chunks).
  rewrite filter_cons_False; [done|]. by intros H.
Qed.

Lemma texts_cons_unparsable chunks : texts (Unparsable :: chunks) = texts chunks.
Proof. done. Qed.

Lemma texts_app chunks chunks' : texts (chunks ++ chunks') = texts chunks ++ texts chunks'.
Proof. unfold texts, parsed. by rewrite omap_app, filter_app. Qed.

(** The chunks of a read that meets the selection end on the tracker:
    each completion that is not empty is inserted at the tracker as the
    read found it, and its handler waits for the edit. *)
Lemma deliver_live chunks st :
  ¬ stale st →
  edits (deliver chunks st)
  = edits st ++ ((λ c, (currentPosition st, c)) <$> texts chunks)
  ∧ pending (deliver chunks st) = pending st ++ texts chunks
  ∧ cancel_reason (deliver chunks st) = cancel_reason st.
Proof.
  revert st. induction chunks as [|d chunks IH]; intros st H.
  - cbn. by rewrite !app_nil_r.
  - rewrite deliver_cons.
    destruct (IH (onData d st)) as (I1 & I2 & I3); [by rewrite stale_onData|].
    rewrite I1, I2, I3. rewrite onData_live by done. cbn zeta.
    destruct d as [c|]; [case_bool_decide as Hc|].
    + subst c. by rewrite texts_cons_empty.
    + rewrite texts_cons_parsed by done. cbn. by rewrite <- !app_assoc.
    + by rewrite texts_cons_unparsable.
Qed.


Lemma step_read st chunks eof :
  response st = Flowing →
  step st (Read chunks eof)
  = reactions (if eof then onEnd (set_response Ended (deliver chunks st))
               else deliver chunks st).
Proof. intros H. cbn [step]. by rewrite H. Qed.

Lemma step_read_stopped st chunks eof :
  response st ≠ Flowing → step st (Read chunks eof) = st.
Proof. intros H. cbn [step]. by destruct (response st). Qed.

(** What the end of a turn leaves as the handlers made it: the end of the
    response and the reactions to a cancel call touch neither the document
    nor the tracker. *)
Lemma turn_frame st (eof : bool) :
  let st' := reactions (if eof then onEnd (set_response Ended st) else st) in
  position st' = position st
  ∧ currentPosition st' = currentPosition st
  ∧ selection st' = selection st
  ∧ pending st' = pending st
  ∧ edits st' = edits st
  ∧ cancel_reason st' = cancel_reason st.
Proof.
  destruct st as [p cur sel reason resp fin ret pend eds reps].
  destruct eof, reason, fin, resp; cbv; done.
Qed.

(** A step changes the tracker only by resuming a handler, and the edits
    only by delivering chunks. *)
Lemma step_frame st e :
  position (step st e) = position st
  ∧ ((∀ i, e ≠ Applied i) → currentPosition (step st e) = currentPosition st)
  ∧ ((∀ chunks eof, e ≠ Read chunks eof) → edits (step st e) = edits st).
Proof.
  destruct e as [chunks eof|i|src|sel].
  - destruct (decide (response st = Flowing)) as [H|H].
    + rewrite step_read by done.
      destruct (turn_frame (deliver chunks st) eof) as (H1 & H2 & _).
      destruct (deliver_frame chunks st) as (D1 & D2 & _).
      split_and!; [congruence|intros _; congruence|]. intros Hn. by destruct (Hn chunks eof).
    + by rewrite step_read_stopped.
  - cbn [step]. unfold resume.
    destruct (pending st !! i); (split_and!; [done| |done]);
      intros Hn; by destruct (Hn i).
  - destruct st as [p cur sel reason resp fin ret pend eds reps].
    destruct reason, fin, resp; cbv; done.
  - done.
Qed.

(** What a read makes of a flowing stream whose promise is pending. *)
Lemma read_outcome st chunks (eof : bool) :
  response st = Flowing → finished st = None →
  let st1 := deliver chunks st in
  let st2 := step st (Read chunks eof) in
  edits st2 = edits st1
  ∧ pending st2 = pending st1
  ∧ cancel_reason st2 = cancel_reason st1
  ∧ currentPosition st2 = currentPosition st
  ∧ selection st2 = selection st
  ∧ (if eof
     then response st2 = Ended ∧ finished st2 = Some true
          ∧ returned st2 = S (returned st)
          ∧ reports st2 = reports st1 ++ [completion_message]
     else reports st2 = reports st1
          ∧ match cancel_reason st1 with
            | None => response st2 = Flowing ∧ finished st2 = None
                      ∧ returned st2 = returned st
            | Some _ => response st2 = Destroyed ∧ finished st2 = Some false
                        ∧ returned st2 = S (returned st)
            end).
Proof.
  intros Hflow Hfin st1 st2. subst st2. rewrite step_read by done. fold st1.
  destruct (deliver_frame chunks st) as (D1 & D2 & D3 & D4 & D5 & D6 & D7 & _).
  fold st1 in D1, D2, D3, D4, D5, D6, D7.
  rewrite Hflow in D4. rewrite Hfin in D5.
  rewrite <- D2, <- D3, <- D6. clear D1 D2 D3 D6 D7.
  destruct st1 as [p cur sel reason resp fin ret pend eds reps].
  cbn in D4, D5. subst resp fin.
  destruct eof, reason; cbv -[app]; done.
Qed.

(** What a cancel call and its reactions make of any state. *)
Lemma cancel_step st src :
  let st' := step st (Cancel src) in
  position st' = position st
  ∧ currentPosition st' = currentPosition st
  ∧ selection st' = selection st
  ∧ pending st' = pending st
  ∧ edits st' = edits st
  ∧ reports st' = reports st
  ∧ cancel_reason st' ≠ None
  ∧ finished st' = Some (default false (finished st))
  ∧ returned st' = (if finished st is Some _ then returned st else S (returned st))
  ∧ response st' = (if response st is Flowing then Destroyed else response st).
Proof.
  destruct st as [p cur sel reason resp fin ret pend eds reps].
  destruct reason, fin, resp; cbv; done.
Qed.

Lemma consistent_start sel : consistent (start sel).
Proof.
  unfold consistent; simpl. split_and!; [done..|].
  by intros [?|?%elem_of_nil]%elem_of_cons.
Qed.

Lemma consistent_flowing st :
  consistent st → response st = Flowing →
  finished st = None ∧ cancel_reason st = None ∧ returned st = 0%nat
  ∧ completion_message ∉ reports st.
Proof.
  unfold consistent. intros H E. rewrite E in H.
  by destruct (finished st) as [[]|].
Qed.

Lemma consistent_step st e : consistent st → consistent (step st e).
Proof.
  intros H. destruct e as [chunks eof|i|src|sel].
  - destruct (decide (response st = Flowing)) as [Hflow|Hflow];
      [|by rewrite step_read_stopped].
    destruct (consistent_flowing st H Hflow) as (Hfin & Hreason & Hret & Hmsg).
    destruct (read_outcome st chunks eof Hflow Hfin) as (_ & _ & R3 & _ & _ & R6).
    destruct (deliver_frame chunks st) as (_ & _ & _ & _ & _ & _ & D7 & _).
    cbn zeta in R3, R6. unfold consistent.
    destruct eof.
    + destruct R6 as (-> & -> & -> & ->). rewrite Hret. split; [done|].
      apply elem_of_app. right. by apply list_elem_of_singleton.
    + destruct R6 as (Hrep & R6). rewrite Hrep, D7.
      assert (completion_message ∉ reports st ++ replicate (length chunks) "Generating...")
        by (by apply not_in_replicate).
      destruct (cancel_reason (deliver chunks st)) eqn:E.
      * destruct R6 as (-> & -> & ->). rewrite R3, Hret. done.
      * destruct R6 as (-> & -> & ->). rewrite R3, Hret. done.
  - cbn [step]. unfold consistent, resume in *.
    destruct (pending st !! i) as [c|]; [|done]. cbn.
    destruct (response st), (finished st) as [[]|]; try done.
    + destruct H as (? & ? & ?). split_and!; [done..|]. by apply not_in_snoc.
    + destruct H as (? & ?). split; [done|]. apply elem_of_app. by left.
    + destruct H as (? & ? & ?). split_and!; [done..|]. by apply not_in_snoc.
  - destruct (cancel_step st src) as (_ & _ & _ & _ & _ & C6 & C7 & C8 & C9 & C10).
    cbn zeta in *. unfold consistent in *. rewrite C6, C8, C9, C10.
    destruct (response st), (finished st) as [[]|]; try done; cbn.
    + destruct H as (? & -> & ?). done.
    + destruct H as (? & ? & ?). done.
  - done.
Qed.

Lemma consistent_run evs st : consistent st → consistent (run evs st).
Proof.
  revert st. induction evs as [|e evs IH]; intros st H; [done|].
  apply IH. by apply consistent_step.
Qed.


(** Once the promise is settled, no event changes it or the document, and
    none reports the completion message. *)
Lemma settled_step st e :
  consistent st → is_Some (finished st) →
  finished (step st e) = finished st
  ∧ returned (step st e) = returned st
  ∧ edits (step st e) = edits st
  ∧ response (step st e) = response st
  ∧ (completion_message ∈ reports (step st e) ↔ completion_message ∈ reports st).
Proof.
  intros H [b Hb].
  assert (response st ≠ Flowing) as Hstopped.
  { intros E. destruct (consistent_flowing st H E) as (E' & _). congruence. }
  destruct e as [chunks eof|i|src|sel].
  - by rewrite step_read_stopped.
  - cbn [step]. unfold resume. destruct (pending st !! i) as [c|]; [|done]. cbn.
    split_and!; [done..|]. rewrite elem_of_app, list_elem_of_singleton.
    split; [intros [?|?]; done|by left].
  - destruct (cancel_step st src) as (_ & _ & _ & _ & C5 & C6 & _ & C8 & C9 & C10).
    cbn zeta in *. rewrite C5, C6, C8, C9, C10, Hb.
    by destruct (response st).
  - done.
Qed.

Lemma settled_run more st :
  consistent st → is_Some (finished st) →
  finished (run more st) = finished st
  ∧ returned (run more st) = returned st
  ∧ edits (run more st) = edits st
  ∧ response (run more st) = response st
  ∧ (completion_message ∈ reports (run more st) ↔ completion_message ∈ reports st).
Proof.
  revert st. induction more as [|e more IH]; intros st Hc Hs; [done|].
  destruct (settled_step st e Hc Hs) as (H1 & H2 & H3 & H4 & H5).
  destruct (IH (step st e)) as (I1 & I2 & I3 & I4 & I5).
  { by apply consistent_step. }
  { by rewrite H1. }
  change (run (e :: more) st) with (run more (step st e)).
  split_and!; [congruence..|]. by rewrite I5.
Qed.

(** With no handler at its await either, only the selection and the
    cancel token can still change. *)
Lemma quiet_step st e :
  consistent st → is_Some (finished st) → pending st = [] →
  pending (step st e) = []
  ∧ currentPosition (step st e) = currentPosition st
  ∧ reports (step st e) = reports st.
Proof.
  intros H [b Hb] Hp.
  assert (response st ≠ Flowing) as Hstopped.
  { intros E. destruct (consistent_flowing st H E) as (E' & _). congruence. }
  destruct e as [chunks eof|i|src|sel].
  - by rewrite step_read_stopped.
  - cbn [step]. unfold resume. by rewrite Hp.
  - destruct (cancel_step st src) as (_ & C2 & _ & C4 & _ & C6 & _).
    cbn zeta in *. by rewrite C2, C4, C6.
  - done.
Qed.

Lemma quiet_run more st :
  consistent st → is_Some (finished st) → pending st = [] →
  pending (run more st) = []
  ∧ currentPosition (run more st) = currentPosition st
  ∧ reports (run more st) = reports st.
Proof.
  revert st. induction more as [|e more IH]; intros st Hc Hs Hp; [done|].
  destruct (quiet_step st e Hc Hs Hp) as (H1 & H2 & H3).
  destruct (settled_step st e Hc Hs) as (S1 & _).
  destruct (IH (step st e)) as (I1 & I2 & I3);
    [by apply consistent_step|by rewrite S1|done|].
  change (run (e :: more) st) with (run more (step st e)).
  split_and!; congruence.
Qed.

Lemma settled_count st :
  consistent st →
  (returned st ≤ 1)%nat ∧ (returned st = 1%nat ↔ is_Some (finished st)).
Proof.
  unfold consistent.
  destruct (response st), (finished st) as [[]|]; try done.
  - intros (_ & -> & _). split; [lia|]. split; [done|]. by intros [? ?].
  - intros (-> & _). split; [lia|]. by split.
  - intros (_ & -> & _). split; [lia|]. by split.
Qed.

(** A cancellation settles a pending promise with false and leaves a
    settled one as it is. *)
Lemma cancel_settles st src :
  consistent st →
  finished (step st (Cancel src)) = Some (default false (finished st))
  ∧ reports (step st (Cancel src)) = reports st.
Proof.
  intros _. by destruct (cancel_step st src) as (_ & _ & _ & _ & _ & C6 & _ & C8 & _).
Qed.

(** A handler still at its await when the response ends resumes
    afterwards: it moves the tracker and reports once more, after the
    completion message. *)
Lemma resume_after_end :
  let st := run [Read [Parsed "ab"] false; Read [Parsed "cd"] false;
                 Read [] true; Applied 0; Applied 0]
              (start (Sample.caret 0 5)) in
  finished st = Some true
  ∧ response st = Ended
  ∧ currentPosition st = Sample.at_ 0 9
  ∧ reports st = ["Starting model..."; "Generating..."; "Generating...";
                  "Ollama completion finished."; "Generating..."; "Generating..."].
Proof. split_and!; reflexivity. Qed.

(** Where the tracker ends depends on the order in which the edits
    resolve: here the edit of the second completion resolves first. *)
Lemma resume_out_of_order :
  let st := step (start (Sample.caret 0 5))
              (Read [Parsed (String JS.LF "a"); Parsed "bc"] false) in
  currentPosition (run [Applied 0; Applied 0] st) = Sample.at_ 1 3
  ∧ currentPosition (run [Applied 1; Applied 0] st) = Sample.at_ 1 1
  ∧ edits (run [Applied 1; Applied 0] st)
    = [(Sample.at_ 0 5, String JS.LF "a"); (Sample.at_ 0 5, "bc")].
Proof. split_and!; reflexivity. Qed.

End apply_loop.

(** C2 fails of the source.  The ['data'] handler inserts at the tracker
    before its await and moves the tracker after it, from where the tracker
    is by then.  When the chunk "cd" arrives while the edit of "ab" is
    still awaited, both are inserted at (line 0, col 5), and the handler of
    "cd", which applied its fragment at (0, 5), leaves the tracker at
    (0, 9) and not at (0, 5 + 2); the document reads "cdab" where the
    model sent "abcd".  Nothing is cancelled on the way. *)
Theorem tracker_update_overlap :
  let st1 := Stream.step (Stream.start (Sample.caret 0 5))
               (Stream.Read [Stream.Parsed "ab"] false) in
  let st2 := Stream.step st1 (Stream.Read [Stream.Parsed "cd"] false) in
  let st3 := Stream.step st2 (Stream.Applied 0) in
  let st4 := Stream.step st3 (Stream.Applied 0) in
  Stream.edits st4 = [(Sample.at_ 0 5, "ab"); (Sample.at_ 0 5, "cd")]
  ∧ Stream.currentPosition st2 = Sample.at_ 0 5
  ∧ Stream.currentPosition st3 = Sample.at_ 0 7
  ∧ Stream.currentPosition st4 = Sample.at_ 0 9
  ∧ Stream.spec_tracker (Sample.at_ 0 5) "cd" = Sample.at_ 0 7
  ∧ Stream.pending st4 = []
  ∧ Stream.cancel_reason st4 = None
  ∧ Stream.response st4 = Stream.Flowing.
Proof. split_and!; reflexivity. Qed.

(** C1 fails of the source.  After "ab" has been inserted the user moves
    the caret to (line 3, col 0); the next read brings the chunk "cd" and
    the end of the response.  The handler finds the selection end off the
    tracker, fires the cancel token and makes no edit, but the ['end']
    handler runs before the reactions to the token: the completion message
    is reported and the promise settles with true, for good.  The request
    does not end in the cancelled state. *)
Theorem stale_stream_ends_finished :
  let st := Stream.run [Stream.Read [Stream.Parsed "ab"] false; Stream.Applied 0;
                        Stream.Select (Sample.caret 3 0)]
              (Stream.start (Sample.caret 0 5)) in
  let st' := Stream.step st (Stream.Read [Stream.Parsed "cd"] true) in
  Stream.stale st
  ∧ Stream.response st = Stream.Flowing
  ∧ Stream.cancel_reason st = None
  ∧ Stream.cancel_reason st' = Some "Autocompletion request terminated by user cancel"
  ∧ Stream.edits st' = [(Sample.at_ 0 5, "ab")]
  ∧ Stream.reports st'
    = ["Starting model..."; "Generating..."; "Generating..."; "Generating...";
       "Ollama completion finished."]
  ∧ Stream.finished st' = Some true
  ∧ ∀ more, Stream.finished (Stream.run more st') = Some true.
Proof.
  intros st st'. split_and!; [by vm_compute|reflexivity..|].
  intros more.
  assert (Stream.consistent st') as Hc.
  { apply consistent_step. apply (consistent_run _ _ (consistent_start _)). }
  by destruct (settled_run more st' Hc) as (-> & _); [by eexists|].
Qed.

(** C3: over every trace of reads, resolved edits, cancellations from any
    source and changes of the selection, the callback that awaits the
    promise [finished] resumes at most once, and once exactly when the
    promise is settled.  It is settled with true only by the end of the
    response, whose handler reports the completion message just before;
    with false only after a cancellation, and then the completion message
    is never reported.  On a pending promise the end of the response
    settles with true and a cancellation with false; a settled promise
    ignores every later event, so any number of cancellations leaves one
    resumption. *)
Theorem finished_exactly_once (sel : Editor.Selection) (evs : list Stream.event) :
  let st := Stream.run evs (Stream.start sel) in
  (Stream.returned st ≤ 1)%nat
  ∧ (Stream.returned st = 1%nat ↔ is_Some (Stream.finished st))
  ∧ (Stream.finished st = Some true →
       Stream.response st = Stream.Ended
       ∧ Stream.completion_message ∈ Stream.reports st)
  ∧ (Stream.finished st = Some false →
       Stream.cancel_reason st ≠ None
       ∧ ∀ more, Stream.completion_message ∉ Stream.reports (Stream.run more st))
  ∧ (∀ chunks, Stream.finished st = None →
       let st' := Stream.step st (Stream.Read chunks true) in
       Stream.finished st' = Some true
       ∧ Stream.returned st' = 1%nat
       ∧ last (Stream.reports st') = Some Stream.completion_message)
  ∧ (∀ src,
       let st' := Stream.step st (Stream.Cancel src) in
       Stream.finished st' = Some (default false (Stream.finished st))
       ∧ Stream.returned st' = 1%nat
       ∧ Stream.reports st' = Stream.reports st)
  ∧ (∀ more b, Stream.finished st = Some b →
       Stream.finished (Stream.run more st) = Some b
       ∧ Stream.returned (Stream.run more st) = 1%nat)
  ∧ (∀ srcs, srcs ≠ [] →
       Stream.returned (Stream.run (Stream.Cancel <$> srcs) st) = 1%nat).
Proof.
  intros st.
  assert (Stream.consistent st) as Hst by apply consistent_run, consistent_start.
  clearbody st.
  split_and!; try (by apply settled_count).
  - intros Hf. unfold Stream.consistent in Hst. rewrite Hf in Hst.
    by destruct (Stream.response st); try done; destruct Hst as (? & ?).
  - intros Hf. split.
    + unfold Stream.consistent in Hst. rewrite Hf in Hst.
      by destruct (Stream.response st); try done; destruct Hst as (? & ? & ?).
    + intros more.
      destruct (settled_run more st Hst) as (_ & _ & _ & _ & ->); [by eexists|].
      unfold Stream.consistent in Hst. rewrite Hf in Hst.
      by destruct (Stream.response st); try done; destruct Hst as (? & ? & ?).
  - intros chunks Hf st'.
    assert (Stream.response st = Stream.Flowing) as Hflow.
    { unfold Stream.consistent in Hst. rewrite Hf in Hst.
      by destruct (Stream.response st). }
    destruct (consistent_flowing st Hst Hflow) as (_ & _ & Hret & _).
    destruct (read_outcome st chunks true Hflow Hf)
      as (_ & _ & _ & _ & _ & _ & R2 & R3 & R4).
    subst st'. rewrite R2, R3, R4, Hret. split_and!; [done..|]. apply last_snoc.
  - intros src st'. subst st'.
    destruct (cancel_settles st src Hst) as (H1 & H2).
    split_and!; [done| |done].
    apply settled_count; [by apply consistent_step|]. rewrite H1. by eexists.
  - intros more b Hb.
    destruct (settled_run more st Hst) as (R1 & R2 & _); [by eexists|].
    split; [congruence|].
    rewrite R2. apply settled_count; [done|by eexists].
  - intros srcs Hne. apply settled_count; [by apply consistent_run|].
    destruct srcs as [|src srcs]; [done|].
    change (Stream.run (Stream.Cancel <$> src :: srcs) st)
      with (Stream.run (Stream.Cancel <$> srcs) (Stream.step st (Stream.Cancel src))).
    destruct (cancel_settles st src Hst) as (H1 & _).
    destruct (settled_run (Stream.Cancel <$> srcs)
                (Stream.step st (Stream.Cancel src))) as (R1 & _).
    + by apply consistent_step.
    + rewrite H1. by eexists.
    + rewrite R1, H1. by eexists.
Qed.

Lemma finished_exactly_once_witness :
  let st := Stream.run [Stream.Read [Stream.Parsed "ab"] false; Stream.Applied 0;
                        Stream.Read [] true]
              (Stream.start (Sample.caret 0 5)) in
  Stream.finished st = Some true
  ∧ Stream.returned
      (Stream.run [Stream.Cancel Stream.DocumentClosed; Stream.Cancel Stream.ProgressUI] st)
    = 1%nat.
Proof.
  destruct (finished_exactly_once (Sample.caret 0 5)
              [Stream.Read [Stream.Parsed "ab"] false; Stream.Applied 0;
               Stream.Read [] true])
    as (_ & _ & _ & _ & _ & _ & H & _).
  split; [reflexivity|].
  apply (H [Stream.Cancel Stream.DocumentClosed; Stream.Cancel Stream.ProgressUI] true).
  reflexivity.
Defined.

(** * Further properties *)

(** ** Stored options *)

Section stored_options.
Import Config.
Implicit Types store : gmap string JS.value.

Lemma get_stored store k v : store !! k = Some v → get store k = v.
Proof. unfold get. by intros ->. Qed.

Lemma key_inj o o' : key o = key o' → o = o'.
Proof. destruct o, o'; intros H; try reflexivity; discriminate H. Qed.

Lemma get_insert_other store o o' v :
  o ≠ o' → get (<[key o := v]> store) (key o') = get store (key o').
Proof.
  intros Hne. unfold get. rewrite lookup_insert_ne; [done|].
  intros E. by apply key_inj in E.
Qed.

Local Ltac unfold_fields :=
  cbv [field updateVSConfig kind_of documented_default apiEndpoint apiModel
       apiMessageHeader numPredict promptWindowSize completionKeys
       responsePreview responsePreviewMaxTokens responsePreviewDelay
       continueInline apiTemperature embedModel].

Lemma field_stored store o v :
  store !! key o = Some v →
  field o (updateVSConfig store)
  = match documented_default (kind_of o) with
    | Some d => if JS.truthy v then v else d
    | None => v
    end.
Proof.
  intros Hget%get_stored. destruct o; cbv [key] in Hget; unfold_fields;
    rewrite Hget; reflexivity.
Qed.

Lemma field_insert_other store o o' v :
  o ≠ o' →
  field o' (updateVSConfig (<[key o := v]> store)) = field o' (updateVSConfig store).
Proof.
  intros Hne. pose proof (get_insert_other store o o' v Hne) as Hget.
  set (store' := <[key o := v]> store) in *. clearbody store'.
  destruct o'; cbv [key] in Hget; unfold_fields; rewrite Hget; reflexivity.
Qed.

(** The trigger-key variable of a snapshot is never the empty string. *)
Lemma completionKeys_not_empty store s :
  completionKeys (updateVSConfig store) = JS.Str s → s ≠ "".
Proof.
  cbv [updateVSConfig completionKeys]. unfold JS.or.
  destruct (JS.truthy (get store "completion keys")) eqn:Ht.
  - intros E. rewrite E in Ht. simpl in Ht. by case_bool_decide.
  - by intros [= <-].
Qed.

End stored_options.

(** X1: an option that is stored with a truthy value is taken as stored;
    stored with a falsy value (0, the empty string, false, null) it gets
    the same default as an absent one; the two flags are taken as stored
    whatever the value. *)
Theorem stored_option_read (store : gmap string JS.value) (o : Config.option_name)
    (v : JS.value) (Hstored : store !! Config.key o = Some v) :
  (Config.kind_of o = Config.Flag →
     Config.field o (Config.updateVSConfig store) = v)
  ∧ (Config.kind_of o ≠ Config.Flag → JS.truthy v = true →
     Config.field o (Config.updateVSConfig store) = v)
  ∧ (Config.kind_of o ≠ Config.Flag → JS.truthy v = false →
     Config.field o (Config.updateVSConfig store)
     = Config.field o (Config.updateVSConfig (delete (Config.key o) store))).
Proof.
  pose proof (field_stored store o v Hstored) as H.
  assert (delete (Config.key o) store !! Config.key o = None) as Hdel
    by apply lookup_delete_eq.
  apply get_absent in Hdel.
  split_and!.
  - intros Hk. rewrite H. by destruct o.
  - intros Hk Ht. rewrite H, Ht. by destruct o.
  - intros Hk Ht. rewrite H, Ht.
    destruct o; try done; cbv [Config.key] in Hdel;
      cbv [Config.key Config.field Config.updateVSConfig Config.apiEndpoint
           Config.apiModel Config.apiMessageHeader Config.numPredict Config.promptWindowSize
           Config.completionKeys Config.responsePreviewMaxTokens
           Config.responsePreviewDelay Config.apiTemperature
           Config.kind_of Config.documented_default];
      rewrite Hdel; reflexivity.
Qed.

Lemma stored_option_read_witness :
  Config.field Config.PreviewDelay
    (Config.updateVSConfig {[ "preview delay" := JS.Num 3 ]}) = JS.Num 3.
Proof.
  destruct (stored_option_read {[ "preview delay" := JS.Num 3 ]}
              Config.PreviewDelay (JS.Num 3)) as (_ & H & _).
  - vm_compute. reflexivity.
  - apply H; [discriminate|reflexivity].
Defined.

(** X2: storing one option changes the variable of no other option; the
    embedding model is not an option of its own: it always equals the
    completion model. *)
Theorem options_independent (store : gmap string JS.value)
    (o o' : Config.option_name) (v : JS.value) (Hother : o ≠ o') :
  Config.field o' (Config.updateVSConfig (<[Config.key o := v]> store))
  = Config.field o' (Config.updateVSConfig store)
  ∧ Config.embedModel (Config.updateVSConfig (<[Config.key o := v]> store))
    = Config.apiModel (Config.updateVSConfig (<[Config.key o := v]> store)).
Proof. split; [by apply field_insert_other|reflexivity]. Qed.

Lemma options_independent_witness :
  Config.field Config.Model
    (Config.updateVSConfig (<[ "endpoint" := JS.Str "http://host" ]> ∅)) = JS.Str "".
Proof.
  destruct (options_independent ∅ Config.Endpoint Config.Model
              (JS.Str "http://host")) as (H & _); [discriminate|].
  exact H.
Defined.

(** ** Trigger characters *)

Section activation.
Import Ext.

Lemma as_string_inv v s : as_string v = Some s → v = JS.Str s.
Proof. destruct v; try done. by intros [= ->]. Qed.

(** The typed variables agree with the snapshot they are read from. *)
Lemma of_snapshot_keys snapshot g :
  of_snapshot snapshot = Some g →
  Config.completionKeys snapshot = JS.Str (completionKeys g)
  ∧ Config.apiModel snapshot = JS.Str (apiModel g)
  ∧ Config.embedModel snapshot = JS.Str (embedModel g).
Proof.
  unfold of_snapshot. intros H.
  destruct (as_string (Config.apiEndpoint snapshot)); [|done].
  destruct (as_string (Config.apiModel snapshot)) eqn:Em; [|done].
  destruct (as_string (Config.apiMessageHeader snapshot)); [|done].
  destruct (as_number (Config.apiTemperature snapshot)); [|done].
  destruct (as_string (Config.embedModel snapshot)) eqn:Ee; [|done].
  destruct (as_number (Config.numPredict snapshot)); [|done].
  destruct (as_number (Config.promptWindowSize snapshot)); [|done].
  destruct (as_string (Config.completionKeys snapshot)) eqn:Ek; [|done].
  destruct (as_flag (Config.responsePreview snapshot)); [|done].
  destruct (as_number (Config.responsePreviewMaxTokens snapshot)); [|done].
  destruct (as_number (Config.responsePreviewDelay snapshot)); [|done].
  destruct (as_flag (Config.continueInline snapshot)); [|done].
  cbn in H. injection H as <-. cbn.
  by rewrite (as_string_inv _ _ Em), (as_string_inv _ _ Ee), (as_string_inv _ _ Ek).
Qed.

Lemma cat_units s : Text.cat (Text.units s) = s.
Proof. induction s as [|c s IH]; [done|]. cbn. by rewrite IH. Qed.

Lemma units_length s : length (Text.units s) = String.length s.
Proof. induction s as [|c s IH]; [done|]. cbn. by rewrite IH. Qed.

Lemma units_single s : Forall (λ u, String.length u = 1%nat) (Text.units s).
Proof. induction s as [|c s IH]; constructor; done. Qed.

End activation.

(** X3: for a snapshot read from well-typed storage, the completion
    provider is registered with one trigger character per code unit of the
    trigger-key setting, in order, and with at least one; with the setting
    absent or empty the only trigger is the space. *)
Theorem trigger_characters (store : gmap string JS.value) (g : Ext.Globals)
    (Htyped : Ext.of_snapshot (Config.updateVSConfig store) = Some g) :
  let t := Text.units (Ext.completionKeys g) in
  Activation.triggers (Activation.activate g) = [t]
  ∧ Activation.triggers (Activation.activate_legacy g) = [t]
  ∧ t ≠ []
  ∧ Text.cat t = Ext.completionKeys g
  ∧ length t = String.length (Ext.completionKeys g)
  ∧ Forall (λ u, String.length u = 1%nat) t
  ∧ (store !! "completion keys" = None
     ∨ store !! "completion keys" = Some (JS.Str "") → t = [" "]).
Proof.
  intros t. apply of_snapshot_keys in Htyped as (Hk & _).
  split_and!; [done|done| |apply cat_units|apply units_length|apply units_single|].
  - apply completionKeys_not_empty in Hk. subst t.
    by destruct (Ext.completionKeys g).
  - intros H. subst t.
    assert (Config.get store "completion keys" = JS.Undefined
            ∨ Config.get store "completion keys" = JS.Str "") as Hget.
    { unfold Config.get. destruct H as [-> | ->]; auto. }
    cbv [Config.updateVSConfig Config.completionKeys] in Hk.
    destruct Hget as [Hget|Hget]; rewrite Hget in Hk;
      injection Hk as <-; reflexivity.
Qed.

Lemma trigger_characters_witness :
  Activation.triggers
    (Activation.activate
       {| Ext.apiEndpoint := ""; Ext.apiModel := ""; Ext.apiMessageHeader := "";
          Ext.apiTemperature := 0; Ext.embedModel := ""; Ext.numPredict := 0;
          Ext.promptWindowSize := 0; Ext.completionKeys := ". ";
          Ext.responsePreview := None; Ext.responsePreviewMaxTokens := 0;
          Ext.responsePreviewDelay := 0; Ext.continueInline := None |})
  = [["."; " "]].
Proof.
  apply (trigger_characters {[ "completion keys" := JS.Str ". " ]}).
  vm_compute. reflexivity.
Defined.

(** ** Headers without placeholders *)

Section plain_header.

Lemma replace_from_absent pat v before s :
  JS.includes pat s = false → JS.replace_from pat v before s = s.
Proof.
  revert before. induction s as [|c s IH]; intros before;
    rewrite includes_eq, replace_from_eq; intros [Hp Hs]%orb_false_iff;
    rewrite Hp; [done|]. by rewrite IH.
Qed.

End plain_header.

(** X4: a header template without an opening brace, the empty default
    among them, is passed on unchanged, whatever the language id, the file
    name and the workspace name are. *)
Theorem header_without_placeholders (g : Ext.Globals)
    (workspace_name : option string) (document : Editor.TextDocument)
    (Hplain : JS.count "{" (Ext.apiMessageHeader g) = 0%nat) :
  Ext.messageHeaderSub g workspace_name document = Ext.apiMessageHeader g
  ∧ (∀ position,
       Ext.previewInput g workspace_name document position
       = Ext.apiMessageHeader g +:+ Ext.clipped_prompt g document position).
Proof.
  assert (Ext.messageHeaderSub g workspace_name document = Ext.apiMessageHeader g) as E.
  { unfold Ext.messageHeaderSub, JS.replace.
    rewrite (replace_from_absent "{LANG}") by (by apply no_brace_no_placeholder).
    rewrite (replace_from_absent "{FILE_NAME}") by (by apply no_brace_no_placeholder).
    by rewrite (replace_from_absent "{PROJECT_NAME}")
      by (by apply no_brace_no_placeholder). }
  split; [done|]. intros position. unfold Ext.previewInput. by rewrite E.
Qed.

Lemma header_without_placeholders_witness :
  Ext.messageHeaderSub (Sample.globals "-- $& dialect: ansi" 2000 None None)
    (Some "shop") (Sample.document "") = "-- $& dialect: ansi".
Proof.
  apply (header_without_placeholders
           (Sample.globals "-- $& dialect: ansi" 2000 None None)
           (Some "shop") (Sample.document "")).
  reflexivity.
Defined.

(** ** Context size and prompt length *)

Section context_size.
Import Editor Ext.

Lemma string_length_app (s t : string) :
  String.length (s +:+ t) = (String.length s + String.length t)%nat.
Proof.
  induction s as [|c s IH]; [done|]. rewrite string_app_cons. cbn. by rewrite IH.
Qed.

Lemma clipped_prompt_length g document position :
  let L := Z.of_nat (String.length
             (getText document {| range_start := file_start; range_end := position |})) in
  Z.of_nat (String.length (clipped_prompt g document position))
  = Z.min L (Z.max 0 (promptWindowSize g)).
Proof.
  intros L. rewrite clipped_prompt_drop, length_drop. fold L. lia.
Qed.

End context_size.

(** X5: the context size of a request is the smaller of the prompt length
    and the window size, for the preview request and for the legacy
    streaming request, which carry the same prompt: the header followed by
    the window.  When the text before the cursor fills the window
    ([0 <= W <= L]) the context size is exactly [W] while the prompt is
    longer by the whole header; with a window of zero or less the prompt
    is the header alone. *)
Theorem context_size (g : Ext.Globals) (workspace_name : option string)
    (document : Editor.TextDocument) (position : Editor.Position) :
  let L := Z.of_nat (String.length
             (Editor.getText document
                {| Editor.range_start := Editor.file_start;
                   Editor.range_end := position |})) in
  let W := Ext.promptWindowSize g in
  let header := Ext.messageHeaderSub g workspace_name document in
  let input := Ext.previewInput g workspace_name document position in
  let preview := Ext.previewRequest g input in
  let legacy := Ext.legacyRequest g workspace_name document position in
  Ext.prompt preview = input
  ∧ Ext.prompt legacy = input
  ∧ Ext.num_ctx legacy = Ext.num_ctx preview
  ∧ Ext.num_ctx preview ≤ W
  ∧ Ext.num_ctx preview ≤ Z.of_nat (String.length input)
  ∧ (0 ≤ W ≤ L →
       Ext.num_ctx preview = W
       ∧ Z.of_nat (String.length input) = Z.of_nat (String.length header) + W)
  ∧ (W ≤ 0 → Ext.num_ctx preview = W ∧ input = header).
Proof.
  intros L W header input preview legacy.
  pose proof (clipped_prompt_length g document position) as Hlen.
  cbn zeta in Hlen. fold L W in Hlen.
  assert (Z.of_nat (String.length input)
          = Z.of_nat (String.length header)
            + Z.of_nat (String.length (Ext.clipped_prompt g document position))) as Hin.
  { subst input header. unfold Ext.previewInput. rewrite string_length_app. lia. }
  subst preview legacy. unfold Ext.legacyRequest. fold input.
  cbn [Ext.streamRequest Ext.previewRequest Ext.num_ctx Ext.prompt]. fold W.
  split_and!; [done|done|done|lia|lia| |].
  - intros HW. split; lia.
  - intros HW. split; [lia|].
    assert (String.length (Ext.clipped_prompt g document position) = 0%nat) as H0 by lia.
    subst input header. unfold Ext.previewInput.
    destruct (Ext.clipped_prompt g document position); [|done].
    by rewrite string_app_nil_r.
Qed.

Lemma context_size_witness :
  Ext.num_ctx (Ext.legacyRequest (Sample.globals "-- sql " 4 None None) None
                 (Sample.document "SELECT") (Sample.at_ 0 6)) = 4
  ∧ Ext.prompt (Ext.legacyRequest (Sample.globals "-- sql " 4 None None) None
                  (Sample.document "SELECT") (Sample.at_ 0 6)) = "-- sql LECT".
Proof.
  destruct (context_size (Sample.globals "-- sql " 4 None None) None
              (Sample.document "SELECT") (Sample.at_ 0 6))
    as (_ & _ & H1 & _ & _ & H2 & _).
  split; [|reflexivity]. rewrite H1. apply H2. vm_compute. split; discriminate.
Defined.

(** X7: creating embeddings asks for the completion model (the embedding
    model of a snapshot is its model) with the contents of all files.
    With the module as it is loaded nothing is ever stored: when the embed
    call succeeds, the assignment throws and the user is shown the error
    notification for "embeddings is not defined", not the success message;
    when it fails, the failure goes through the error reporter, silently
    for a cancellation.  Either way the next [autocompleteCommand] throws as
    before. *)
Theorem create_embeddings {vector : Type} (store : gmap string JS.value)
    (g : Ext.Globals) (fileContents : list string)
    (embed : Embeddings.EmbedRequest → Embeddings.embed_outcome vector)
    (Htyped : Ext.of_snapshot (Config.updateVSConfig store) = Some g) :
  let request := {| Embeddings.embed_model := Ext.apiModel g;
                    Embeddings.input := fileContents |} in
  let result := Embeddings.createEmbeddings Ext.module_embeddings g fileContents embed in
  result.1 = Ext.module_embeddings
  ∧ (∀ created, embed request = Embeddings.Embedded created →
       result.2
       = [Embeddings.Reported
            (Ext.ShowErrorMessage
               "Ollama Autocoder encountered an error: : embeddings is not defined");
          Embeddings.Reported (Ext.ConsoleError (Ext.ReferenceError "embeddings"))]
       ∧ Embeddings.ShowInformationMessage "Embeddings created successfully." ∉ result.2)
  ∧ (∀ err, embed request = Embeddings.EmbedFails err →
       result.2 = Embeddings.Reported <$> Ext.handleError err
       ∧ (Ext.code err = Some "ERR_CANCELED" → result.2 = []))
  ∧ (∀ workspace_name document position,
       Ext.autocompleteRequest result.1 g workspace_name document position
       = inl (Ext.ReferenceError "embeddings")).
Proof.
  intros request result.
  apply of_snapshot_keys in Htyped as (_ & Hm & He).
  assert (Ext.embedModel g = Ext.apiModel g) as Hsame.
  { cbv [Config.updateVSConfig Config.apiModel Config.embedModel] in Hm, He.
    congruence. }
  subst result request. unfold Embeddings.createEmbeddings. rewrite Hsame.
  split_and!.
  - by destruct (embed _).
  - intros created ->. split; [reflexivity|].
    intros [H|[H|H%elem_of_nil]%elem_of_cons]%elem_of_cons; done.
  - intros err ->. split; [done|].
    intros Hc. unfold Ext.handleError. by rewrite bool_decide_eq_true_2.
  - intros workspace_name document position. by destruct (embed _).
Qed.

Lemma create_embeddings_witness :
  (Embeddings.createEmbeddings Ext.module_embeddings
     (Sample.globals "" 2000 None None) ["a"; "b"]
     (λ _, Embeddings.Embedded [[1; 2]; [3; 4]])).2
  = [Embeddings.Reported
       (Ext.ShowErrorMessage
          "Ollama Autocoder encountered an error: : embeddings is not defined");
     Embeddings.Reported (Ext.ConsoleError (Ext.ReferenceError "embeddings"))].
Proof.
  destruct (create_embeddings (vector := list Z)
              {[ "endpoint" := JS.Str "http://localhost:11434/api/generate";
                 "model" := JS.Str "qwen2.5-coder";
                 "max tokens predicted" := JS.Num 1000;
                 "prompt window size" := JS.Num 2000;
                 "preview max tokens" := JS.Num 50;
                 "preview delay" := JS.Num 1 ]}
              (Sample.globals "" 2000 None None) ["a"; "b"]
              (λ _, Embeddings.Embedded [[1; 2]; [3; 4]])) as (_ & H & _).
  - vm_compute. reflexivity.
  - destruct (H _ eq_refl) as (H1 & _). exact H1.
Defined.

(** ** The tracker along a stream *)

Section tracker_chain.
Import Editor Stream Track.
Implicit Types (p q : Position) (s t : string) (st : State).

Lemma isBefore_false p q :
  isBefore p q = false ↔
  (line q < line p ∨ (line q = line p ∧ character q ≤ character p))%nat.
Proof.
  unfold isBefore.
  destruct (Nat.ltb_spec (line p) (line q)), (Nat.eqb_spec (line p) (line q)),
    (Nat.ltb_spec (character p) (character q)); cbn; split; intros Hpq;
    try done; try lia; exfalso; lia.
Qed.

Lemma after_last_app c s t :
  after_last c (s +:+ t)
  = if (0 <? JS.count c t)%nat then after_last c t else after_last c s +:+ t.
Proof.
  induction s as [|d s IH].
  - rewrite string_app_nil_l. destruct (JS.count c t) eqn:Ht; cbn [Nat.ltb Nat.leb]; [|done].
    by apply after_last_none.
  - rewrite string_app_cons. cbn [after_last]. rewrite count_app, IH.
    destruct (JS.count c t) as [|n] eqn:Ht; cbn [Nat.ltb Nat.leb].
    + rewrite Nat.add_0_r.
      destruct (JS.count c s) as [|m]; cbn [Nat.ltb Nat.leb]; [|done].
      case_bool_decide; by rewrite ?string_app_cons.
    + by replace (JS.count c s + S n)%nat with (S (JS.count c s + n)) by lia.
Qed.

Lemma newPosition_empty p : newPosition p "" = p.
Proof. destruct p as [l c]. unfold newPosition. cbn. f_equal; lia. Qed.

Lemma newPosition_app p s t : newPosition (newPosition p s) t = newPosition p (s +:+ t).
Proof.
  rewrite !newPosition_spec. unfold spec_tracker.
  rewrite count_app, after_last_app, string_length_app.
  destruct (JS.count JS.LF s) as [|n] eqn:Hs, (JS.count JS.LF t) as [|m] eqn:Ht;
    cbn [Nat.eqb Nat.add Nat.ltb Nat.leb line character];
    rewrite ?Nat.add_0_r; try rewrite Hs; cbn [Nat.eqb];
    rewrite ?string_length_app, ?(after_last_none _ s) by done;
    f_equal; lia.
Qed.

Lemma newPosition_not_before p q s :
  isBefore q p = false → isBefore (newPosition q s) p = false.
Proof.
  rewrite newPosition_spec, !isBefore_false. unfold spec_tracker.
  destruct (Nat.eqb_spec (JS.count JS.LF s) 0); cbn [line character]; lia.
Qed.

Lemma isBefore_irrefl p : isBefore p p = false.
Proof. apply isBefore_false. lia. Qed.

Lemma cat_app (l l' : list string) : Text.cat (l ++ l') = Text.cat l +:+ Text.cat l'.
Proof.
  induction l as [|x l IH]; cbn [Text.cat app]; [by rewrite string_app_nil_l|].
  by rewrite IH, string_app_assoc.
Qed.

Lemma cat_filter (l : list string) : Text.cat (filter (λ t, t ≠ "") l) = Text.cat l.
Proof.
  induction l as [|x l IH]; [done|]. rewrite filter_cons.
  destruct (decide (x ≠ "")) as [H|H]; cbn [Text.cat]; [by rewrite IH|].
  apply dec_stable in H. subst x. by rewrite string_app_nil_l.
Qed.

Lemma run_app evs evs' st : run (evs ++ evs') st = run evs' (run evs st).
Proof. apply foldl_app. Qed.

(** The edits and the tracker through every step. *)
Lemma tracked_step trigger st e : tracked trigger st → tracked trigger (step st e).
Proof.
  intros (Hp & resumed & He & Hc).
  destruct (step_frame st e) as (Fp & _).
  split; [congruence|].
  destruct e as [chunks eof|i|src|sel].
  - destruct (decide (response st = Flowing)) as [Hflow|Hflow];
      [|rewrite step_read_stopped by done; by exists resumed].
    rewrite step_read by done.
    destruct (turn_frame (deliver chunks st) eof) as (_ & T2 & _ & T4 & T5 & _).
    destruct (deliver_frame chunks st) as (_ & D2 & _).
    cbn zeta in T2, T4, T5. rewrite T2, T4, T5, D2.
    exists resumed. split; [|done].
    destruct (decide (stale st)) as [Hs|Hs].
    + by destruct (deliver_stale chunks st Hs) as (-> & -> & _).
    + destruct (deliver_live chunks st Hs) as (-> & -> & _).
      rewrite fmap_app, <- He, <- app_assoc. do 2 f_equiv.
      rewrite <- list_fmap_compose. by rewrite list_fmap_id.
  - cbn [step]. unfold resume.
    destruct (pending st !! i) as [c|] eqn:Hpend; [|by exists resumed].
    cbn. exists (resumed ++ [c]). split.
    + rewrite <- He, <- app_assoc. f_equiv. cbn.
      symmetry. by apply delete_Permutation.
    + rewrite Hc, cat_app. cbn [Text.cat]. rewrite string_app_nil_r.
      apply newPosition_app.
  - destruct (cancel_step st src) as (_ & C2 & _ & C4 & C5 & _).
    cbn zeta in *. rewrite C2, C4, C5. by exists resumed.
  - by exists resumed.
Qed.

Lemma tracked_run trigger evs st : tracked trigger st → tracked trigger (run evs st).
Proof.
  revert st. induction evs as [|e evs IH]; intros st H; [done|].
  apply IH. by apply tracked_step.
Qed.

Lemma tracked_start sel : tracked (active sel) (start sel).
Proof.
  split; [done|]. exists []. split; [done|]. cbn. by rewrite newPosition_empty.
Qed.

(** The same while the edits resolve in the order of their calls. *)
Lemma tracked_in_order_step trigger st e :
  in_order e → tracked_in_order trigger st → tracked_in_order trigger (step st e).
Proof.
  intros Ho (Hp & resumed & He & Hc).
  destruct (step_frame st e) as (Fp & _).
  split; [congruence|].
  destruct e as [chunks eof|[|i]|src|sel]; [| |done| |].
  - destruct (decide (response st = Flowing)) as [Hflow|Hflow];
      [|rewrite step_read_stopped by done; by exists resumed].
    rewrite step_read by done.
    destruct (turn_frame (deliver chunks st) eof) as (_ & T2 & _ & T4 & T5 & _).
    destruct (deliver_frame chunks st) as (_ & D2 & _).
    cbn zeta in T2, T4, T5. rewrite T2, T4, T5, D2.
    exists resumed. split; [|done].
    destruct (decide (stale st)) as [Hs|Hs].
    + by destruct (deliver_stale chunks st Hs) as (-> & -> & _).
    + destruct (deliver_live chunks st Hs) as (-> & -> & _).
      rewrite fmap_app, He, <- app_assoc. do 2 f_equal.
      rewrite <- list_fmap_compose. by rewrite list_fmap_id.
  - cbn [step]. unfold resume.
    destruct (pending st) as [|c rest] eqn:Hpend; cbn;
      [exists resumed; by rewrite Hpend|].
    exists (resumed ++ [c]). split.
    + by rewrite He, <- app_assoc.
    + rewrite Hc, cat_app. cbn [Text.cat]. rewrite string_app_nil_r.
      apply newPosition_app.
  - destruct (cancel_step st src) as (_ & C2 & _ & C4 & C5 & _).
    cbn zeta in *. rewrite C2, C4, C5. by exists resumed.
  - by exists resumed.
Qed.

Lemma tracked_in_order_run trigger evs st :
  Forall in_order evs →
  tracked_in_order trigger st → tracked_in_order trigger (run evs st).
Proof.
  intros Ho. revert st. induction Ho as [|e evs He Hevs IH]; intros st H; [done|].
  apply IH. by apply tracked_in_order_step.
Qed.

Lemma tracked_in_order_start sel : tracked_in_order (active sel) (start sel).
Proof.
  split; [done|]. exists []. split; [done|]. cbn. by rewrite newPosition_empty.
Qed.

Lemma undisturbed_in_order evs : Forall undisturbed evs → Forall in_order evs.
Proof.
  intros H. eapply Forall_impl; [exact H|].
  by intros [chunks eof|[|i]|src|sel].
Qed.

(** The edits are of fragments that are not empty. *)
Lemma edits_not_empty_step st e :
  Forall (λ ed, ed.2 ≠ "") (edits st) → Forall (λ ed, ed.2 ≠ "") (edits (step st e)).
Proof.
  intros H. destruct e as [chunks eof|i|src|sel].
  - destruct (decide (response st = Flowing)) as [Hflow|Hflow];
      [|by rewrite step_read_stopped].
    rewrite step_read by done.
    destruct (turn_frame (deliver chunks st) eof) as (_ & _ & _ & _ & -> & _).
    destruct (decide (stale st)) as [Hs|Hs].
    + by destruct (deliver_stale chunks st Hs) as (-> & _).
    + destruct (deliver_live chunks st Hs) as (-> & _).
      apply Forall_app. split; [done|]. apply Forall_fmap.
      unfold texts. apply Forall_forall. by intros c [? _]%list_elem_of_filter.
  - cbn [step]. unfold resume. by destruct (pending st !! i).
  - by destruct (cancel_step st src) as (_ & _ & _ & _ & -> & _).
  - done.
Qed.

(** One step of a stream that nobody disturbs. *)
Lemma undisturbed_step st e :
  undisturbed e →
  consistent st → live st →
  live (step st e)
  ∧ snd <$> edits (step st e)
    = (snd <$> edits st) ++ texts (delivered [e]).
Proof.
  intros Hu Hc (Hflow & Hsel & Hb).
  assert (¬ stale st) as Hs by (unfold stale; by intros []).
  destruct (consistent_flowing st Hc Hflow) as (Hfin & Hreason & _).
  destruct (step_frame st e) as (Fp & _).
  destruct e as [chunks [|]|[|i]|src|sel]; try done.
  - destruct (read_outcome st chunks false Hflow Hfin)
      as (R1 & _ & R3 & R4 & R5 & _ & R6).
    destruct (deliver_live chunks st Hs) as (D1 & _ & D3).
    cbn zeta in *. rewrite D3, Hreason in R6. destruct R6 as (R6 & _).
    unfold live. rewrite R6, R4, R5, Fp. split; [done|].
    rewrite R1, D1, fmap_app. f_equal.
    rewrite <- list_fmap_compose, list_fmap_id.
    unfold delivered. cbn. by rewrite app_nil_r.
  - cbn [step] in *. unfold resume in *.
    destruct (pending st) as [|c rest]; [by rewrite app_nil_r|].
    unfold live. cbn. rewrite app_nil_r.
    pose proof (newPosition_not_before _ _ c Hb) as Hn.
    unfold sel_end. cbn. rewrite Hn. done.
Qed.

Lemma delivered_cons e evs : delivered (e :: evs) = delivered [e] ++ delivered evs.
Proof. unfold delivered. cbn. by rewrite app_nil_r. Qed.

Lemma undisturbed_run st evs :
  Forall undisturbed evs →
  consistent st → live st →
  live (run evs st)
  ∧ snd <$> edits (run evs st) = (snd <$> edits st) ++ texts (delivered evs).
Proof.
  intros Hu. revert st. induction Hu as [|e evs He Hevs IH]; intros st Hc Hl.
  - cbn. by rewrite app_nil_r.
  - destruct (undisturbed_step st e He Hc Hl) as (Hl' & E').
    destruct (IH (step st e)) as (Hl'' & E''); [by apply consistent_step|done|].
    change (run (e :: evs) st) with (run evs (step st e)).
    split; [done|].
    by rewrite E'', E', <- app_assoc, (delivered_cons e evs), texts_app.
Qed.

Lemma live_start sel :
  isBefore (active sel) (anchor sel) = false → live (start sel).
Proof.
  intros H. unfold live, sel_end. cbn. rewrite H.
  split_and!; [done..|]. apply isBefore_irrefl.
Qed.

(** Fragments read and applied in turn. *)
Lemma in_turn_undisturbed toks : Forall undisturbed (in_turn toks).
Proof. induction toks as [|t toks IH]; [constructor|]. by repeat constructor. Qed.

Lemma in_turn_delivered toks : delivered (in_turn toks) = Parsed <$> toks.
Proof.
  induction toks as [|t toks IH]; [done|].
  change (in_turn (t :: toks))
    with (Read [Parsed t] false :: Applied 0 :: in_turn toks).
  rewrite (delivered_cons (Read _ _)), (delivered_cons (Applied 0)), IH. done.
Qed.

Lemma texts_parsed toks : texts (Parsed <$> toks) = filter (λ t, t ≠ "") toks.
Proof.
  unfold texts. f_equal. induction toks as [|t toks IH]; [done|].
  change (parsed (Parsed <$> t :: toks)) with (t :: parsed (Parsed <$> toks)).
  by rewrite IH.
Qed.

Lemma in_turn_idle toks st :
  consistent st → live st → pending st = [] →
  pending (run (in_turn toks) st) = [].
Proof.
  revert st. induction toks as [|t toks IH]; intros st Hc Hl Hp; [done|].
  change (in_turn (t :: toks))
    with ([Read [Parsed t] false; Applied 0] ++ in_turn toks).
  rewrite run_app.
  assert (Forall undisturbed [Read [Parsed t] false; Applied 0]) as Hu
    by (by repeat constructor).
  apply IH.
  - by apply consistent_run.
  - by apply undisturbed_run.
  - destruct Hl as (Hflow & Hsel & _).
    assert (¬ stale st) as Hs by (unfold stale; by intros []).
    change (run [Read [Parsed t] false; Applied 0] st)
      with (resume 0 (step st (Read [Parsed t] false))).
    rewrite step_read by done.
    destruct (turn_frame (deliver [Parsed t] st) false) as (_ & _ & _ & T4 & _).
    destruct (deliver_live [Parsed t] st Hs) as (_ & D2 & _).
    cbn zeta in T4. rewrite D2, Hp in T4. unfold resume. rewrite T4.
    destruct (decide (t = "")) as [->|Hne].
    + by rewrite texts_cons_empty.
    + by rewrite texts_cons_parsed.
Qed.

End tracker_chain.

(** X8: the tracker arithmetic composes: moving over one fragment and
    then over another is moving over their concatenation, the empty
    fragment moves nothing, and the tracker never moves backwards. *)
Theorem tracker_composition (p : Editor.Position) (s t : string) :
  Stream.newPosition (Stream.newPosition p s) t = Stream.newPosition p (s +:+ t)
  ∧ Stream.newPosition p "" = p
  ∧ Editor.isBefore (Stream.newPosition p s) p = false.
Proof.
  split_and!; [apply newPosition_app|apply newPosition_empty|].
  apply newPosition_not_before, isBefore_irrefl.
Qed.

Section stale_reads.
Import Editor Stream Track.
Implicit Types st : State.

(** A cancel reason, once set, stays. *)
Lemma cancelled_step st e :
  cancel_reason st ≠ None → cancel_reason (step st e) ≠ None.
Proof.
  intros H. destruct e as [chunks eof|i|src|sel].
  - destruct (decide (response st = Flowing)) as [Hflow|Hflow];
      [|by rewrite step_read_stopped].
    rewrite step_read by done.
    destruct (turn_frame (deliver chunks st) eof) as (_ & _ & _ & _ & _ & ->).
    destruct (deliver_frame chunks st) as (_ & _ & _ & _ & _ & _ & _ & D8).
    by rewrite D8.
  - cbn [step]. unfold resume. by destruct (pending st !! i).
  - by destruct (cancel_step st src) as (_ & _ & _ & _ & _ & _ & C7 & _).
  - done.
Qed.

Lemma cancelled_run evs st :
  cancel_reason st ≠ None → cancel_reason (run evs st) ≠ None.
Proof.
  revert st. induction evs as [|e evs IH]; intros st H; [done|].
  apply IH. by apply cancelled_step.
Qed.

(** A read that meets a selection end off the tracker. *)
Lemma stale_read st d chunks (eof : bool) :
  consistent st → response st = Flowing → stale st →
  let st' := step st (Read (d :: chunks) eof) in
  cancel_reason st' ≠ None
  ∧ edits st' = edits st
  ∧ pending st' = pending st
  ∧ currentPosition st' = currentPosition st
  ∧ finished st' = Some eof
  ∧ response st' = (if eof then Ended else Destroyed)
  ∧ reports st'
    = reports st ++ replicate (S (length chunks)) "Generating..."
      ++ (if eof then [completion_message] else []).
Proof.
  intros Hc Hflow Hs.
  destruct (consistent_flowing st Hc Hflow) as (Hfin & _).
  destruct (read_outcome st (d :: chunks) eof Hflow Hfin)
    as (R1 & R2 & R3 & R4 & _ & R6).
  destruct (deliver_stale (d :: chunks) st Hs) as (D1 & D2 & D3).
  destruct (deliver_frame (d :: chunks) st) as (_ & _ & _ & _ & _ & _ & D7 & _).
  cbn zeta in *. rewrite R1, R2, R3, R4, D1, D2.
  specialize (D3 ltac:(done)).
  destruct eof.
  - destruct R6 as (-> & -> & _ & ->). rewrite D7, <- app_assoc. done.
  - destruct R6 as (-> & R6). rewrite D7, app_nil_r.
    destruct (cancel_reason (deliver (d :: chunks) st)); [|done].
    by destruct R6 as (-> & -> & _).
Qed.

End stale_reads.

(** X9: in every state that a request can reach, whatever the reads, the
    user and the cancellation sources do and in whatever order the edits
    resolve, the tracker is where the texts of the handlers that have
    resumed, taken in the order in which they resumed as one fragment
    inserted at the trigger position, would end; these texts and those of
    the handlers still at their await are the texts of the edit calls made
    so far, in some order, and in this order when the edits resolve in the
    order of their calls: then, with no handler waiting, the tracker is
    where all the inserted text ends.  The tracker is never before the
    trigger position, and no edit inserts an empty text. *)
Theorem edits_tracked (sel : Editor.Selection) (evs : list Stream.event) :
  let st := Stream.run evs (Stream.start sel) in
  Stream.position st = Editor.active sel
  ∧ (∃ resumed,
       resumed ++ Stream.pending st ≡ₚ snd <$> Stream.edits st
       ∧ Stream.currentPosition st
         = Stream.newPosition (Editor.active sel) (Text.cat resumed))
  ∧ (Forall Track.in_order evs →
       (∃ resumed,
          snd <$> Stream.edits st = resumed ++ Stream.pending st
          ∧ Stream.currentPosition st
            = Stream.newPosition (Editor.active sel) (Text.cat resumed))
       ∧ (Stream.pending st = [] →
            Stream.currentPosition st
            = Stream.newPosition (Editor.active sel) (Track.inserted st)))
  ∧ Editor.isBefore (Stream.currentPosition st) (Editor.active sel) = false
  ∧ Forall (λ ed, ed.2 ≠ "") (Stream.edits st).
Proof.
  intros st.
  assert (Track.tracked (Editor.active sel) st) as (Hp & resumed & He & Hc)
    by apply tracked_run, tracked_start.
  split_and!; [done|by exists resumed| | |].
  - intros Ho.
    assert (Track.tracked_in_order (Editor.active sel) st) as (_ & resumed' & He' & Hc')
      by (apply tracked_in_order_run; [done|apply tracked_in_order_start]).
    split; [by exists resumed'|].
    intros Hidle. unfold Track.inserted.
    by rewrite He', Hidle, app_nil_r.
  - rewrite Hc. apply newPosition_not_before, isBefore_irrefl.
  - subst st. clear. induction evs as [|e evs IH] using rev_ind; [constructor|].
    rewrite run_app. by apply edits_not_empty_step.
Qed.

(** X10: from a selection whose active end is its end, over any trace in
    which the response is read and the edits resolve in the order of their
    calls, and nobody disturbs the stream, every completion that is not
    empty is inserted, in order of arrival, and nothing else; the selection
    end stays on the tracker and nothing is cancelled; once no handler
    waits for its edit the tracker is where the concatenation of the
    completions ends, and the end of the response then resolves the request
    with true.  Fragments read and applied in turn are one such trace,
    which leaves no handler waiting. *)
Theorem undisturbed_stream (sel : Editor.Selection) (evs : list Stream.event)
    (Hforward : Editor.isBefore (Editor.active sel) (Editor.anchor sel) = false)
    (Hundisturbed : Forall Track.undisturbed evs) :
  let st := Stream.run evs (Stream.start sel) in
  let toks := Stream.parsed (Track.delivered evs) in
  snd <$> Stream.edits st = filter (λ t, t ≠ "") toks
  ∧ (Stream.pending st = [] →
       Stream.currentPosition st = Stream.newPosition (Editor.active sel) (Text.cat toks))
  ∧ Editor.sel_end (Stream.selection st) = Stream.currentPosition st
  ∧ Stream.cancel_reason st = None
  ∧ Stream.finished st = None
  ∧ Stream.finished (Stream.step st (Stream.Read [] true)) = Some true
  ∧ Stream.edits (Stream.step st (Stream.Read [] true)) = Stream.edits st
  ∧ (∀ fragments, evs = Track.in_turn fragments →
       toks = fragments ∧ Stream.pending st = []).
Proof.
  intros st toks.
  assert (Stream.consistent (Stream.start sel)) as Hc0 by apply consistent_start.
  assert (Track.live (Stream.start sel)) as Hl0 by by apply live_start.
  destruct (undisturbed_run _ evs Hundisturbed Hc0 Hl0) as ((Hflow & Hsel & Hb) & He).
  fold st in Hflow, Hsel, Hb, He. cbn [Stream.start Stream.edits fmap list_fmap app] in He.
  assert (Stream.consistent st) as Hc by by apply consistent_run.
  destruct (consistent_flowing st Hc Hflow) as (Hfin & Hreason & _).
  destruct (read_outcome st [] true Hflow Hfin) as (R1 & _ & _ & _ & _ & _ & R2 & _).
  cbn zeta in R1, R2.
  split_and!; [done| |done|done|done|done|done|].
  - intros Hidle.
    assert (Track.tracked_in_order (Editor.active sel) st)
      as (_ & resumed & Hr & Hcur)
      by (apply tracked_in_order_run;
          [by apply undisturbed_in_order|apply tracked_in_order_start]).
    rewrite Hidle, app_nil_r, He in Hr. subst resumed.
    rewrite Hcur. unfold Stream.texts. fold toks. by rewrite cat_filter.
  - intros fragments ->. split.
    + subst toks. rewrite in_turn_delivered. clear.
      induction fragments as [|t l IH]; [done|].
      change (Stream.parsed (Stream.Parsed <$> t :: l))
        with (t :: Stream.parsed (Stream.Parsed <$> l)).
      by rewrite IH.
    + by apply in_turn_idle.
Qed.

Lemma undisturbed_stream_witness :
  snd <$> Stream.edits
            (Stream.run [Stream.Read [Stream.Parsed "SELECT"; Stream.Parsed ""] false;
                         Stream.Read [Stream.Parsed " 1"] false;
                         Stream.Applied 0; Stream.Applied 0]
               (Stream.start (Sample.caret 2 0)))
  = ["SELECT"; " 1"].
Proof.
  apply (undisturbed_stream (Sample.caret 2 0)
           [Stream.Read [Stream.Parsed "SELECT"; Stream.Parsed ""] false;
            Stream.Read [Stream.Parsed " 1"] false;
            Stream.Applied 0; Stream.Applied 0]).
  - reflexivity.
  - repeat constructor.
Defined.

(** X11: when the request starts on a reversed selection (the active end
    before the anchor), the tracker starts at the active end while the
    selection ends at the anchor: the first read that brings a chunk
    cancels the token, nothing is ever inserted and the tracker never
    moves.  The promise settles with false, unless that read also brings
    the end of the response: then the request ends as finished, with the
    completion message. *)
Theorem reversed_selection_cancels (sel : Editor.Selection)
    (d : Stream.chunk) (chunks : list Stream.chunk) (eof : bool)
    (rest : list Stream.event)
    (Hreversed : Editor.isBefore (Editor.active sel) (Editor.anchor sel) = true) :
  let st := Stream.run (Stream.Read (d :: chunks) eof :: rest) (Stream.start sel) in
  Stream.edits st = []
  ∧ Stream.cancel_reason st ≠ None
  ∧ Stream.currentPosition st = Editor.active sel
  ∧ Stream.finished st = Some eof
  ∧ (Stream.completion_message ∈ Stream.reports st ↔ eof = true).
Proof.
  intros st. subst st.
  change (Stream.run (Stream.Read (d :: chunks) eof :: rest) (Stream.start sel))
    with (Stream.run rest (Stream.step (Stream.start sel) (Stream.Read (d :: chunks) eof))).
  set (st1 := Stream.step (Stream.start sel) (Stream.Read (d :: chunks) eof)).
  assert (Stream.stale (Stream.start sel)) as Hs.
  { unfold Stream.stale, Editor.sel_end. cbn. rewrite Hreversed. intros E.
    rewrite E, isBefore_irrefl in Hreversed. done. }
  destruct (stale_read (Stream.start sel) d chunks eof (consistent_start sel) eq_refl Hs)
    as (H1 & H2 & H3 & H4 & H5 & H6 & H7).
  fold st1 in H1, H2, H3, H4, H5, H6, H7.
  assert (Stream.consistent st1) as Hc
    by (apply consistent_step, consistent_start).
  assert (is_Some (Stream.finished st1)) as Hsome by (rewrite H5; by eexists).
  destruct (settled_run rest st1 Hc Hsome) as (R1 & _ & R3 & _ & R5).
  destruct (quiet_run rest st1 Hc Hsome H3) as (_ & Q2 & _).
  split_and!; [by rewrite R3, H2|by apply cancelled_run|by rewrite Q2, H4|by rewrite R1|].
  rewrite R5.
  pose proof (consistent_step _ (Stream.Read (d :: chunks) eof) (consistent_start sel)) as Hc'.
  fold st1 in Hc'. unfold Stream.consistent in Hc'. rewrite H5, H6 in Hc'.
  destruct eof; [by destruct Hc' as (_ & ?)|].
  destruct Hc' as (_ & _ & ?). by split.
Qed.

Lemma reversed_selection_cancels_witness :
  Stream.edits
    (Stream.run [Stream.Read [Stream.Parsed "SELECT"] false; Stream.Applied 0;
                 Stream.Read [Stream.Parsed " 1"] true]
       (Stream.start {| Editor.anchor := Sample.at_ 0 9; Editor.active := Sample.at_ 0 2 |}))
  = [].
Proof.
  apply (reversed_selection_cancels
           {| Editor.anchor := Sample.at_ 0 9; Editor.active := Sample.at_ 0 2 |}
           (Stream.Parsed "SELECT") [] false
           [Stream.Applied 0; Stream.Read [Stream.Parsed " 1"] true]).
  reflexivity.
Defined.

(** ** The completion item on every path *)

Section completion_item.
Import Ext Provider.

Lemma trimStart_idempotent (r : string) : JS.trimStart (JS.trimStart r) = JS.trimStart r.
Proof.
  induction r as [|c r IH]; [done|]. cbn [JS.trimStart].
  destruct (JS.is_white c) eqn:Hc; [done|]. cbn [JS.trimStart]. by rewrite Hc.
Qed.

Lemma trim_not_blank (r : string) : JS.trim r ≠ "" → JS.trimStart r ≠ "".
Proof. unfold JS.trim. intros H E. by rewrite E in H. Qed.

End completion_item.

(** X12: when the provider is not cancelled it returns one item, whose
    follow-up command depends on the two flags only: the autocomplete
    command when [continueInline] holds or [responsePreview] does not, and
    none otherwise, whatever the preview request answers.  A cancelled
    provider returns the bare placeholder, without command. *)
Theorem command_attached (g : Ext.Globals) (post : Ext.RequestBody → Provider.outcome)
    (workspace_name : option string) (document : Editor.TextDocument)
    (position : Editor.Position) :
  (∃ item,
     (Provider.provideCompletionItems g false post workspace_name document position).1
       = [item]
     ∧ Provider.item_command item
       = (if Provider.truth (Ext.continueInline g)
             || negb (Provider.truth (Ext.responsePreview g))
          then Some Provider.autocomplete_command else None)
     ∧ Provider.documentation item
       = Some "Press `Enter` to get an autocompletion from Ollama")
  ∧ Provider.provideCompletionItems g true post workspace_name document position
    = ([{| Provider.label := "Autocomplete with Ollama";
           Provider.insertText := Provider.SnippetString "${1:}";
           Provider.documentation := None;
           Provider.item_command := None |}], []).
Proof.
  split; [|reflexivity]. unfold Provider.provideCompletionItems.
  destruct (Provider.truth (Ext.responsePreview g)).
  - destruct (post _) as [response|err body]; [case_bool_decide|]; by eexists.
  - by eexists.
Qed.

(** X13: the one item that the provider returns is either the
    placeholder (its label and the empty snippet) or carries a preview:
    then its insert text is its label, which is not empty and does not
    start with white space. *)
Theorem item_shape (g : Ext.Globals) (cancelled : bool)
    (post : Ext.RequestBody → Provider.outcome)
    (workspace_name : option string) (document : Editor.TextDocument)
    (position : Editor.Position) :
  ∃ item,
    (Provider.provideCompletionItems g cancelled post workspace_name document position).1
      = [item]
    ∧ (Item.placeholder_shape item
       ∨ (Item.preview_shape item
          ∧ cancelled = false
          ∧ Provider.truth (Ext.responsePreview g) = true
          ∧ ∃ response,
              post (Ext.previewRequest g
                      (Ext.previewInput g workspace_name document position))
              = Provider.Succeeds response
              ∧ Provider.label item = JS.trimStart response)).
Proof.
  unfold Provider.provideCompletionItems, Item.placeholder_shape, Item.preview_shape.
  destruct cancelled; [by eexists; split; [|left]|].
  destruct (Provider.truth (Ext.responsePreview g)); [|by eexists; split; [|left]].
  destruct (post _) as [response|err body] eqn:Hpost;
    [case_bool_decide as Hr|]; eexists; (split; [reflexivity|]); cbn; auto.
  right. split_and!; [done|by apply trim_not_blank|apply trimStart_idempotent|done..|].
  by exists response.
Qed.

(** X14: a provider that is cancelled, or whose preview is off, does not
    depend on what a request would answer and reports nothing; a preview
    request that fails leaves the placeholder and goes through the error
    reporter once, with the error text of the response body as message
    when there is one, and silently when the request was cancelled. *)
Theorem preview_failure (g : Ext.Globals) (cancelled : bool)
    (post : Ext.RequestBody → Provider.outcome)
    (workspace_name : option string) (document : Editor.TextDocument)
    (position : Editor.Position) :
  let result := Provider.provideCompletionItems g cancelled post workspace_name
                  document position in
  (cancelled = true ∨ Provider.truth (Ext.responsePreview g) = false →
     result.2 = []
     ∧ ∀ post', Provider.provideCompletionItems g cancelled post' workspace_name
                  document position = result)
  ∧ (∀ response,
       post (Ext.previewRequest g (Ext.previewInput g workspace_name document position))
       = Provider.Succeeds response → result.2 = [])
  ∧ (∀ err body,
       cancelled = false → Provider.truth (Ext.responsePreview g) = true →
       post (Ext.previewRequest g (Ext.previewInput g workspace_name document position))
       = Provider.Fails err body →
       result.2 = Ext.handleError
                    {| Ext.code := Ext.code err;
                       Ext.message := default (Ext.message err) body |}
       ∧ (Ext.code err = Some "ERR_CANCELED" → result.2 = [])
       ∧ ∃ item, result.1 = [item] ∧ Item.placeholder_shape item).
Proof.
  intros result. subst result. unfold Provider.provideCompletionItems. split_and!.
  - intros [-> | Hoff]; [done|]. rewrite Hoff. by destruct cancelled.
  - intros response ->. destruct cancelled; [done|].
    destruct (Provider.truth (Ext.responsePreview g)); [|done].
    by case_bool_decide.
  - intros err body -> -> ->. cbn.
    assert ((match body with
             | Some e => {| Ext.code := Ext.code err; Ext.message := e |}
             | None => err
             end)
            = {| Ext.code := Ext.code err;
                 Ext.message := default (Ext.message err) body |}) as ->
      by (by destruct body, err).
    split_and!; [done| |by eexists].
    intros Hc. unfold Ext.handleError. cbn. by rewrite bool_decide_eq_true_2.
Qed.

Lemma preview_failure_witness :
  (Provider.provideCompletionItems (Sample.globals "" 2000 (Some true) None) false
     (λ _, Provider.Fails {| Ext.code := Some "ERR_BAD_RESPONSE"; Ext.message := Some "500" |}
             (Some (Some "model not found")))
     None (Sample.document "SEL") (Sample.at_ 0 3)).2
  = [Ext.ShowErrorMessage
       "Ollama Autocoder encountered an error: ERR_BAD_RESPONSE: model not found";
     Ext.ConsoleError {| Ext.code := Some "ERR_BAD_RESPONSE";
                         Ext.message := Some "model not found" |}].
Proof.
  destruct (preview_failure (Sample.globals "" 2000 (Some true) None) false
     (λ _, Provider.Fails {| Ext.code := Some "ERR_BAD_RESPONSE"; Ext.message := Some "500" |}
             (Some (Some "model not found")))
     None (Sample.document "SEL") (Sample.at_ 0 3)) as (_ & _ & H).
  destruct (H _ _ eq_refl eq_refl eq_refl) as (E & _).
  exact E.
Defined.

(** ** The posts of the chat panel *)

Section chat_posts.

Lemma posted_length acc parts : length (Chat.posted acc parts) = length parts.
Proof. revert acc. induction parts as [|p parts IH]; intros acc; [done|]. cbn. by rewrite IH. Qed.

Lemma posted_lookup acc parts k :
  (k < length parts)%nat →
  Chat.posted acc parts !! k = Some (acc +:+ Text.cat (take (S k) parts)).
Proof.
  revert acc k. induction parts as [|p parts IH]; intros acc k Hk; [cbn in Hk; lia|].
  destruct k as [|k]; cbn.
  - by rewrite string_app_nil_r.
  - rewrite IH by (cbn in Hk; lia). by rewrite string_app_assoc.
Qed.

End chat_posts.

(** X15: a message that is not ["ask"] posts nothing.  For an ["ask"]
    message one text is posted per part of the answer, the k-th being the
    concatenation of the first k parts, so the last one is the whole
    answer; an error ends the posts with one ["Error: ..."] text, after
    the texts of the parts that had arrived. *)
Theorem chat_posts (g : Ext.Globals) (chat : Chat.ChatRequest → ChatPanel.chat_outcome)
    (message : Chat.Message) :
  let posts := ChatPanel.onDidReceiveMessage g chat message in
  (Chat.msg_command message ≠ "ask" → posts = [])
  ∧ (Chat.msg_command message = "ask" →
     ∃ request,
       Chat.chat_request g message = Some request
       ∧ Chat.content <$> Chat.messages request = [Chat.msg_text message]
       ∧ let answer := ChatPanel.parts (chat request) in
         (∀ k, (k < length answer)%nat →
               posts !! k = Some (Text.cat (take (S k) answer)))
         ∧ (ChatPanel.failure (chat request) = None →
              length posts = length answer
              ∧ (answer ≠ [] → last posts = Some (Text.cat answer)))
         ∧ (∀ err, ChatPanel.failure (chat request) = Some err →
              length posts = S (length answer)
              ∧ last posts = Some ("Error: " +:+ err))).
Proof.
  intros posts. subst posts. unfold ChatPanel.onDidReceiveMessage, Chat.chat_request.
  split.
  - intros Hne. by rewrite bool_decide_eq_false_2.
  - intros Hask. rewrite bool_decide_eq_true_2 by done.
    eexists. split; [reflexivity|]. split; [reflexivity|]. cbn zeta.
    set (outcome := chat _). split_and!.
    + intros k Hk. rewrite lookup_app_l by (by rewrite posted_length).
      by rewrite posted_lookup.
    + intros ->. rewrite app_nil_r, posted_length. split; [done|].
      intros Hne. rewrite last_lookup, posted_length.
      destruct (ChatPanel.parts outcome) as [|p ps] eqn:Hp; [done|].
      rewrite posted_lookup by (cbn; lia). cbn [length Nat.pred].
      by rewrite take_ge by (cbn; lia).
    + intros err ->. rewrite length_app, posted_length. cbn. split; [lia|].
      apply last_snoc.
Qed.

Lemma chat_posts_witness :
  ChatPanel.onDidReceiveMessage (Sample.globals "" 2000 None None)
    (λ _, {| ChatPanel.parts := ["SEL"; "ECT"; " 1"]; ChatPanel.failure := None |})
    {| Chat.msg_command := "ask"; Chat.msg_text := "Got SQL?" |} !! 2%nat
  = Some "SELECT 1".
Proof.
  destruct (chat_posts (Sample.globals "" 2000 None None)
    (λ _, {| ChatPanel.parts := ["SEL"; "ECT"; " 1"]; ChatPanel.failure := None |})
    {| Chat.msg_command := "ask"; Chat.msg_text := "Got SQL?" |}) as (_ & H).
  destruct H as (request & _ & _ & H0 & _); [reflexivity|].
  apply (H0 2%nat). cbn. lia.
Defined.

(** ** A read that finds the selection moved *)

(** X17: in any state that a request can reach with the response still
    flowing, a read that brings at least one chunk while the end of the
    live selection is off the tracker fires the cancel token (which was not
    fired before) and makes no edit, for none of its chunks; whatever
    follows, no edit is made any more and the callback that awaits the
    promise has resumed once.  If the read does not also bring the end of
    the response, the response stream is destroyed, the promise is settled
    with false and the completion message is never reported; if it does,
    the promise is settled with true after the completion message. *)
Theorem stale_read_cancels (sel : Editor.Selection) (evs : list Stream.event)
    (d : Stream.chunk) (chunks : list Stream.chunk) (eof : bool)
    (Hincoming : Stream.response (Stream.run evs (Stream.start sel)) = Stream.Flowing)
    (Hstale : Stream.stale (Stream.run evs (Stream.start sel))) :
  let st := Stream.run evs (Stream.start sel) in
  let st' := Stream.step st (Stream.Read (d :: chunks) eof) in
  Stream.cancel_reason st = None
  ∧ Stream.cancel_reason st' ≠ None
  ∧ Stream.edits st' = Stream.edits st
  ∧ (∀ rest,
       Stream.edits (Stream.run rest st') = Stream.edits st
       ∧ Stream.cancel_reason (Stream.run rest st') ≠ None
       ∧ Stream.finished (Stream.run rest st') = Some eof
       ∧ Stream.returned (Stream.run rest st') = 1%nat)
  ∧ (eof = false →
       Stream.response st' = Stream.Destroyed
       ∧ ∀ rest, Stream.completion_message ∉ Stream.reports (Stream.run rest st'))
  ∧ (eof = true →
       Stream.response st' = Stream.Ended
       ∧ last (Stream.reports st') = Some Stream.completion_message).
Proof.
  intros st st'. fold st in Hincoming, Hstale.
  assert (Stream.consistent st) as Hc by apply consistent_run, consistent_start.
  assert (Stream.consistent st') as Hc' by by apply consistent_step.
  destruct (consistent_flowing st Hc Hincoming) as (_ & Hreason & _ & Hmsg).
  destruct (stale_read st d chunks eof Hc Hincoming Hstale)
    as (H1 & H2 & _ & _ & H5 & H6 & H7).
  fold st' in H1, H2, H5, H6, H7.
  assert (is_Some (Stream.finished st')) as Hsome by (rewrite H5; by eexists).
  split_and!; [done..| | |].
  - intros rest.
    destruct (settled_run rest st' Hc' Hsome) as (R1 & R2 & R3 & _).
    split_and!; [congruence|by apply cancelled_run|congruence|].
    rewrite R2. by apply settled_count.
  - intros ->. split; [done|]. intros rest.
    destruct (settled_run rest st' Hc' Hsome) as (_ & _ & _ & _ & ->).
    rewrite H7, app_nil_r. by apply not_in_replicate.
  - intros ->. split; [done|]. rewrite H7, app_assoc. apply last_snoc.
Qed.

Lemma stale_read_cancels_witness :
  let st := Stream.run [Stream.Read [Stream.Parsed "ab"] false; Stream.Applied 0;
                        Stream.Select (Sample.caret 3 0)]
              (Stream.start (Sample.caret 0 5)) in
  let st' := Stream.step st
               (Stream.Read [Stream.Parsed "cd"; Stream.Parsed "ef"] false) in
  let rest := [Stream.Select (Sample.caret 0 7);
               Stream.Read [Stream.Parsed "gh"] true] in
  Stream.edits (Stream.run rest st') = Stream.edits st
  ∧ Stream.finished (Stream.run rest st') = Some false.
Proof.
  intros st st' rest.
  destruct (stale_read_cancels (Sample.caret 0 5)
              [Stream.Read [Stream.Parsed "ab"] false; Stream.Applied 0;
               Stream.Select (Sample.caret 3 0)]
              (Stream.Parsed "cd") [Stream.Parsed "ef"] false)
    as (_ & _ & _ & H & _).
  - reflexivity.
  - by vm_compute.
  - destruct (H rest) as (H1 & _ & H2 & _).
    split; [exact H1|exact H2].
Defined.

(** ** A fragment applied with no other handler waiting *)

(** X18: on a flowing response, with the selection end on the tracker
    (line, col) and no handler at its await, a chunk read alone whose edit
    resolves before anything else happens is inserted at the tracker by one
    edit call, when it is not empty, and moves the tracker to
    (line, col + length) when it has no newline and to (line + number of
    newlines, length of the text after the last newline) otherwise; the
    selection then runs from the trigger position to the new tracker.  An
    empty completion makes no edit call and leaves the tracker and the
    selection where they are.  The fragments "ab", newline + "c" and "",
    each applied before the next arrives, lead from (line 0, col 5) to
    (line 1, col 1) by two edit calls. *)
Theorem tracker_update_in_turn (st : Stream.State) (fragment : string)
    (Hflow : Stream.response st = Stream.Flowing)
    (Hlive : Editor.sel_end (Stream.selection st) = Stream.currentPosition st)
    (Hidle : Stream.pending st = []) :
  let cur := Stream.currentPosition st in
  let newlines := JS.count JS.LF fragment in
  let st' := Stream.run [Stream.Read [Stream.Parsed fragment] false; Stream.Applied 0] st in
  (fragment ≠ "" →
     Stream.edits st' = Stream.edits st ++ [(cur, fragment)]
     ∧ (newlines = 0%nat →
          Stream.currentPosition st'
          = {| Editor.line := Editor.line cur;
               Editor.character := Editor.character cur + String.length fragment |}%nat)
     ∧ ((0 < newlines)%nat →
          Stream.currentPosition st'
          = {| Editor.line := Editor.line cur + newlines;
               Editor.character :=
                 String.length (Stream.after_last JS.LF fragment) |}%nat)
     ∧ Stream.selection st'
       = {| Editor.anchor := Stream.position st;
            Editor.active := Stream.currentPosition st' |}
     ∧ Stream.pending st' = [])
  ∧ (fragment = "" →
       Stream.edits st' = Stream.edits st
       ∧ Stream.currentPosition st' = cur
       ∧ Stream.selection st' = Stream.selection st)
  ∧ (let final := Stream.run (Track.in_turn ["ab"; String JS.LF "c"; ""])
                    (Stream.start (Sample.caret 0 5)) in
     Stream.currentPosition final = Sample.at_ 1 1
     ∧ Stream.edits final = [(Sample.at_ 0 5, "ab"); (Sample.at_ 0 7, String JS.LF "c")]).
Proof.
  intros cur newlines st'.
  assert (¬ Stream.stale st) as Hs by (unfold Stream.stale; by intros []).
  set (st1 := Stream.step st (Stream.Read [Stream.Parsed fragment] false)).
  assert (st' = Stream.resume 0 st1) as -> by done.
  destruct (turn_frame (Stream.deliver [Stream.Parsed fragment] st) false)
    as (T1 & T2 & T3 & T4 & T5 & _).
  destruct (deliver_frame [Stream.Parsed fragment] st) as (D1 & D2 & D3 & _).
  destruct (deliver_live [Stream.Parsed fragment] st Hs) as (L1 & L2 & _).
  cbn zeta in T1, T2, T3, T4, T5.
  rewrite <- (step_read st _ false Hflow) in T1, T2, T3, T4, T5. fold st1 in T1, T2, T3, T4, T5.
  rewrite D1 in T1. rewrite D2 in T2. rewrite D3 in T3.
  rewrite L2, Hidle in T4. rewrite L1 in T5. fold cur in T2, T5.
  clearbody st1. clear D1 D2 D3 L1 L2.
  split_and!.
  - intros Hne. rewrite texts_cons_parsed in T4, T5 by done.
    cbn [Stream.texts Stream.parsed omap list_omap filter list_filter app fmap list_fmap] in T4, T5.
    unfold Stream.resume. rewrite T4.
    change ([fragment] !! 0%nat) with (Some fragment).
    cbn [Stream.edits Stream.currentPosition Stream.selection Stream.pending].
    rewrite T1, T2, T5.
    rewrite newPosition_spec. unfold Stream.spec_tracker. fold newlines.
    split_and!; [done| | |done|done].
    + by intros ->.
    + intros H. by destruct newlines; [lia|].
  - intros ->. rewrite texts_cons_empty in T4, T5.
    cbn [Stream.texts Stream.parsed omap list_omap filter list_filter app fmap list_fmap] in T4, T5.
    unfold Stream.resume. rewrite T4.
    change (@nil string !! 0%nat) with (@None string). cbv iota.
    rewrite T5, T2, T3. by rewrite app_nil_r.
  - split; reflexivity.
Qed.

Lemma tracker_update_in_turn_witness :
  Stream.currentPosition
    (Stream.run [Stream.Read [Stream.Parsed "ab"] false; Stream.Applied 0]
       (Stream.start (Sample.caret 0 5)))
  = Sample.at_ 0 7.
Proof.
  destruct (tracker_update_in_turn (Stream.start (Sample.caret 0 5)) "ab"
              eq_refl eq_refl eq_refl) as (H & _).
  destruct H as (_ & H & _); [discriminate|].
  apply H. reflexivity.
Defined.

(** ** Templates that the substitution fills *)

(** X19: for a header template that contains the three placeholders and
    no other opening brace, so that each occurs once, and a language id,
    file name and project name without [{] and [$], the substituted header
    contains none of the placeholders. *)
Theorem placeholders_once_replaced (g : Ext.Globals) (workspace_name : option string)
    (document : Editor.TextDocument)
    (Hlang : JS.includes "{LANG}" (Ext.apiMessageHeader g) = true)
    (Hfile : JS.includes "{FILE_NAME}" (Ext.apiMessageHeader g) = true)
    (Hproj : JS.includes "{PROJECT_NAME}" (Ext.apiMessageHeader g) = true)
    (Hbraces : JS.count "{" (Ext.apiMessageHeader g) = 3%nat)
    (Hvalues : Forall (λ v, JS.count "{" v = 0%nat ∧ JS.count "$" v = 0%nat)
                 [Editor.languageId document; Editor.fileName document;
                  Ext.project_name workspace_name]) :
  let header := Ext.messageHeaderSub g workspace_name document in
  JS.includes "{LANG}" header = false
  ∧ JS.includes "{FILE_NAME}" header = false
  ∧ JS.includes "{PROJECT_NAME}" header = false
  ∧ JS.count "{" header = 0%nat.
Proof.
  intros header.
  apply Forall_cons in Hvalues as [[Hl1 Hl2] Hvalues].
  apply Forall_cons in Hvalues as [[Hf1 Hf2] Hvalues].
  apply Forall_cons in Hvalues as [[Hp1 Hp2] _].
  assert (JS.count "{" header = 0%nat) as Hnone.
  { subst header. unfold Ext.messageHeaderSub, JS.replace.
    set (t := Ext.apiMessageHeader g) in *.
    pose proof (replace_from_count "{LANG}" (Editor.languageId document) "" t
                  eq_refl Hl1 Hl2 Hlang) as H1.
    pose proof (replace_from_count "{FILE_NAME}" (Editor.fileName document) ""
                  _ eq_refl Hf1 Hf2
                  (file_name_survives_lang (Editor.languageId document) "" t Hfile)) as H2.
    pose proof (replace_from_count "{PROJECT_NAME}" (Ext.project_name workspace_name) ""
                  _ eq_refl Hp1 Hp2
                  (project_name_survives_file_name (Editor.fileName document) "" _
                     (project_name_survives_lang (Editor.languageId document) "" t Hproj)))
      as H3.
    lia. }
  split_and!; try (by apply no_brace_no_placeholder). done.
Qed.

Lemma placeholders_once_replaced_witness :
  let g := Sample.globals "A {LANG} file {FILE_NAME} of {PROJECT_NAME}: " 2000 None None in
  JS.includes "{LANG}" (Ext.messageHeaderSub g None (Sample.document "")) = false
  ∧ Ext.messageHeaderSub g None (Sample.document "") = "A sql file q.sql of Untitled: ".
Proof.
  split; [|reflexivity].
  apply (placeholders_once_replaced
           (Sample.globals "A {LANG} file {FILE_NAME} of {PROJECT_NAME}: " 2000 None None)
           None (Sample.document ""));
    [reflexivity|reflexivity|reflexivity|reflexivity|].
  repeat constructor.
Defined.

(** X20: for a header template made of brace-free text and placeholders,
    in any number and order, and a language id and file name without [{]
    and [$] and a project name without [$], the substituted header is the
    template with the first [{LANG}] replaced by the language id, the first
    [{FILE_NAME}] by the file name and the first [{PROJECT_NAME}] by the
    workspace name (["Untitled"] when the workspace has no name or an empty
    one); every later occurrence of a placeholder stays as it is. *)
Theorem first_occurrences_replaced (g : Ext.Globals) (workspace_name : option string)
    (document : Editor.TextDocument) (toks : list Template.token)
    (Htemplate : Ext.apiMessageHeader g = Template.render toks)
    (Htoks : Forall Template.well_formed toks)
    (Hlang : JS.count "{" (Editor.languageId document) = 0%nat
             ∧ JS.count "$" (Editor.languageId document) = 0%nat)
    (Hfile : JS.count "{" (Editor.fileName document) = 0%nat
             ∧ JS.count "$" (Editor.fileName document) = 0%nat)
    (Hproj : JS.count "$" (Ext.project_name workspace_name) = 0%nat) :
  Ext.messageHeaderSub g workspace_name document
  = Template.render
      (Template.fill_first Template.PROJECT_NAME (Ext.project_name workspace_name)
         (Template.fill_first Template.FILE_NAME (Editor.fileName document)
            (Template.fill_first Template.LANG (Editor.languageId document) toks)))
  ∧ (workspace_name = None ∨ workspace_name = Some "" →
       Ext.project_name workspace_name = "Untitled").
Proof.
  destruct Hlang as [Hl1 Hl2], Hfile as [Hf1 Hf2]. split.
  - unfold Ext.messageHeaderSub, JS.replace. rewrite Htemplate.
    rewrite (replace_from_render Template.LANG) by done.
    rewrite (replace_from_render Template.FILE_NAME)
      by (done || by apply fill_first_well_formed).
    rewrite (replace_from_render Template.PROJECT_NAME)
      by (done || by repeat apply fill_first_well_formed).
    done.
  - by intros [->| ->].
Qed.

Lemma first_occurrences_replaced_witness :
  Ext.messageHeaderSub
    (Sample.globals "{LANG} {LANG} {FILE_NAME} {PROJECT_NAME}" 2000 None None)
    None (Sample.document "")
  = "sql {LANG} q.sql Untitled".
Proof.
  destruct (first_occurrences_replaced
              (Sample.globals "{LANG} {LANG} {FILE_NAME} {PROJECT_NAME}" 2000 None None)
              None (Sample.document "")
              [Template.Hole Template.LANG; Template.Lit " ";
               Template.Hole Template.LANG; Template.Lit " ";
               Template.Hole Template.FILE_NAME; Template.Lit " ";
               Template.Hole Template.PROJECT_NAME]) as (H & _);
    [reflexivity|repeat constructor|split; reflexivity|split; reflexivity|reflexivity|].
  exact H.
Defined.
